(** * go-build-variants: the build-matrix script [build.go]

    A shallow embedding of [build.go] (and of its earlier revision, which
    differs in a [GoExe] field and in the absence of the version check) and
    the properties of its naming scheme, of its matrix enumeration, of the
    compression step and of its admission gate.

    Go strings and byte slices are finite sequences of bytes: both are
    rendered as [string], whose characters are 8-bit [ascii] values.  Go's
    [int] is taken to be 64 bits wide.  A Go panic is a value of type
    [panic]; a function that may panic returns a [result]. *)

From Stdlib Require Import ZArith List String Ascii Bool Lia Arith Permutation.
Import ListNotations.

Open Scope string_scope.

(** ** Panics and results *)

Inductive panic : Type :=
| SliceBoundsOutOfRange (hi len : nat)     (* s[:hi] with hi > len(s) *)
| IndexOutOfRange (i len : nat)            (* xs[i] with i >= len(xs) *)
| ExecError (exe : string)                 (* exec: the command failed *)
| NumError (s : string)                    (* strconv.Atoi: syntax or range *)
| InconsistentGoVersion (exe version : string)
| MarshalError.                            (* json: a MarshalJSON failed *)

Inductive result (A : Type) : Type :=
| Ok (a : A)
| Panic (p : panic).

Arguments Ok {A} a.
Arguments Panic {A} p.

Definition bind {A B : Type} (r : result A) (k : A -> result B) : result B :=
  match r with
  | Ok a => k a
  | Panic p => Panic p
  end.

Notation "x <- r ;; k" := (bind r (fun x => k))
  (at level 61, r at next level, right associativity).

Definition returns {A : Type} (r : result A) : Prop := exists a, r = Ok a.

(** ** Bytes and strings *)

Definition byte (c : ascii) : Z := Z.of_N (N_of_ascii c).
Definition chr (z : Z) : ascii := ascii_of_N (Z.to_N z).
Definition str1 (c : ascii) : string := String c "".

(** The double quote and the control characters that Go writes as escapes. *)
Definition dquote : ascii := chr 34.
Definition bslash : ascii := chr 92.

(** [s[:hi]] on a string: the first [hi] bytes, a run-time panic when the
    string is shorter. *)
Definition slice_to (s : string) (hi : nat) : result string :=
  if (hi <=? length s)%nat then Ok (substring 0 hi s)
  else Panic (SliceBoundsOutOfRange hi (length s)).

(** [xs[i]] on a slice. *)
Definition index_at {A : Type} (xs : list A) (i : nat) : result A :=
  match nth_error xs i with
  | Some x => Ok x
  | None => Panic (IndexOutOfRange i (List.length xs))
  end.

Module strings.

(** [strings.HasSuffix]. *)
Definition HasSuffix (s suffix : string) : bool :=
  (length suffix <=? length s)%nat &&
  (substring (length s - length suffix) (length suffix) s =? suffix).

(** [strings.TrimSuffix]: [s] without the trailing [suffix], [s] itself
    when it does not end in [suffix]. *)
Definition TrimSuffix (s suffix : string) : string :=
  if HasSuffix s suffix then substring 0 (length s - length suffix) s else s.

(** [strings.Split s sep] for a non-empty separator: the substrings
    between the occurrences of [sep], scanned from the left; always at
    least one element.  [skip] counts the bytes of a separator that was
    just matched and that remain to be dropped. *)
Fixpoint genSplit (sep s : string) (skip : nat) (cur : string) : list string :=
  match s with
  | EmptyString => [cur]
  | String c s' =>
      match skip with
      | S k => genSplit sep s' k cur
      | O =>
          if prefix sep s
          then cur :: genSplit sep s' (length sep - 1) ""
          else genSplit sep s' 0 (cur ++ str1 c)
      end
  end.

(** [strings.Join]. *)
Fixpoint Join (elems : list string) (sep : string) : string :=
  match elems with
  | [] => ""
  | [e] => e
  | e :: rest => e ++ sep ++ Join rest sep
  end.

End strings.

(** ** unicode/utf8 *)

Module utf8.

Definition RuneError : Z := 65533.   (* U+FFFD *)
Definition RuneSelf : Z := 128.

Definition in_range (lo hi x : Z) : bool := (lo <=? x)%Z && (x <=? hi)%Z.
Definition cont (x : Z) : bool := in_range 128 191 x.
Definition low6 (x : Z) : Z := Z.land x 63.

(** [utf8.DecodeRuneInString]: the first rune of [s] and its width in
    bytes; [(RuneError, 0)] on the empty string and [(RuneError, 1)] on an
    invalid or incomplete encoding.  The first byte fixes the width and
    the range accepted for the second byte; the others are continuation
    bytes. *)
Definition DecodeRuneInString (s : string) : Z * nat :=
  match s with
  | EmptyString => (RuneError, 0)
  | String c0 t =>
      let b0 := byte c0 in
      if (b0 <? RuneSelf)%Z then (b0, 1)
      else if (b0 <? 194)%Z || (244 <? b0)%Z then (RuneError, 1)
      else if (b0 <? 224)%Z then
        match t with
        | String c1 _ =>
            let b1 := byte c1 in
            if cont b1
            then (Z.lor (Z.shiftl (Z.land b0 31) 6) (low6 b1), 2)
            else (RuneError, 1)
        | _ => (RuneError, 1)
        end
      else if (b0 <? 240)%Z then
        let lo := if (b0 =? 224)%Z then 160%Z else 128%Z in
        let hi := if (b0 =? 237)%Z then 159%Z else 191%Z in
        match t with
        | String c1 (String c2 _) =>
            let b1 := byte c1 in
            let b2 := byte c2 in
            if in_range lo hi b1 && cont b2
            then (Z.lor (Z.shiftl (Z.land b0 15) 12)
                    (Z.lor (Z.shiftl (low6 b1) 6) (low6 b2)), 3)
            else (RuneError, 1)
        | _ => (RuneError, 1)
        end
      else
        let lo := if (b0 =? 240)%Z then 144%Z else 128%Z in
        let hi := if (b0 =? 244)%Z then 143%Z else 191%Z in
        match t with
        | String c1 (String c2 (String c3 _)) =>
            let b1 := byte c1 in
            let b2 := byte c2 in
            let b3 := byte c3 in
            if in_range lo hi b1 && cont b2 && cont b3
            then (Z.lor (Z.shiftl (Z.land b0 7) 18)
                    (Z.lor (Z.shiftl (low6 b1) 12)
                       (Z.lor (Z.shiftl (low6 b2) 6) (low6 b3))), 4)
            else (RuneError, 1)
        | _ => (RuneError, 1)
        end
  end.

(** The runes of a string in order, each with the bytes that encode it
    (an invalid byte is a [RuneError] of width 1): what a loop
    [for i := 0; i < len(s); i += size] over [DecodeRuneInString] visits.
    [skip] counts the remaining bytes of the rune just decoded. *)
Fixpoint runes_from (s : string) (skip : nat) : list (Z * string) :=
  match s with
  | EmptyString => []
  | String _ t =>
      match skip with
      | S k => runes_from t k
      | O =>
          let '(r, size) := DecodeRuneInString s in
          (r, substring 0 size s) :: runes_from t (size - 1)
      end
  end.

Definition runes (s : string) : list (Z * string) := runes_from s 0.

End utf8.

(** [strings.Split], with Go's special case of the empty separator, which
    explodes the string into its UTF-8 sequences. *)
Definition Split (s sep : string) : list string :=
  match sep with
  | EmptyString => map snd (utf8.runes s)
  | _ => strings.genSplit sep s 0 ""
  end.

(** ** unicode.IsSpace and bytes.Fields *)

Module unicode.

(** The White_Space property of Unicode, as Go's tables have it. *)
Definition IsSpace (r : Z) : bool :=
  utf8.in_range 9 13 r || (r =? 32)%Z || (r =? 133)%Z || (r =? 160)%Z ||
  (r =? 5760)%Z || utf8.in_range 8192 8202 r || (r =? 8232)%Z ||
  (r =? 8233)%Z || (r =? 8239)%Z || (r =? 8287)%Z || (r =? 12288)%Z.

End unicode.

Module bytes.

(** A rune read from the input is white space when it decodes validly to
    a space: an invalid byte decodes to [RuneError], which is no space. *)
Definition space_rune (rs : Z * string) : bool := unicode.IsSpace (fst rs).

(** [bytes.Fields]: the maximal runs of non-space runes. [cur] is the
    field being read, if any. *)
Fixpoint fields_of (rs : list (Z * string)) (cur : option string) : list string :=
  match rs with
  | [] => match cur with Some f => [f] | None => [] end
  | r :: rest =>
      if space_rune r
      then match cur with
           | Some f => f :: fields_of rest None
           | None => fields_of rest None
           end
      else fields_of rest (Some (match cur with Some f => f | None => "" end ++ snd r))
  end.

Definition Fields (b : string) : list string := fields_of (utf8.runes b) None.

End bytes.

(** ** strconv.Atoi *)

Module strconv.

Definition is_digit (c : ascii) : bool := utf8.in_range 48 57 (byte c).

(** The value of a string of decimal digits, [None] when some byte is
    not a digit. *)
Fixpoint digits_value (s : string) (acc : Z) : option Z :=
  match s with
  | EmptyString => Some acc
  | String c t =>
      if is_digit c then digits_value t (acc * 10 + (byte c - 48))%Z else None
  end.

Definition maxInt : Z := 9223372036854775807.
Definition minInt : Z := (-9223372036854775808)%Z.

(** [strconv.Atoi]: an optional sign, then one decimal digit or more and
    nothing else; the value must fit an [int].  [None] stands for the
    [*NumError] that Go returns. *)
Definition Atoi (s : string) : option Z :=
  let '(neg, body) :=
    match s with
    | String c t =>
        if (byte c =? 45)%Z then (true, t)
        else if (byte c =? 43)%Z then (false, t)
        else (false, s)
    | EmptyString => (false, s)
    end in
  match body with
  | EmptyString => None
  | _ =>
      match digits_value body 0 with
      | None => None
      | Some n =>
          let v := if neg then (- n)%Z else n in
          if (minInt <=? v)%Z && (v <=? maxInt)%Z then Some v else None
      end
  end.

End strconv.

(** ** hash/fnv and encoding/hex *)

Module fnv.

Definition offset32 : Z := 2166136261.
Definition prime32 : Z := 16777619.

(** [sum32a.Write]: for each byte, xor it into the hash, then multiply by
    the prime; arithmetic on [uint32] wraps around. *)
Fixpoint Write (hash : Z) (data : string) : Z :=
  match data with
  | EmptyString => hash
  | String c t => Write ((Z.lxor hash (byte c) * prime32) mod 2 ^ 32)%Z t
  end.

Definition New32a : Z := offset32.

(** [sum32a.Sum(nil)]: the four bytes of the hash, most significant
    first. *)
Definition Sum (hash : Z) : list Z :=
  [ Z.land (Z.shiftr hash 24) 255; Z.land (Z.shiftr hash 16) 255;
    Z.land (Z.shiftr hash 8) 255; Z.land hash 255 ]%Z.

End fnv.

Module hex.

Definition hextable : string := "0123456789abcdef".

Definition digit (v : Z) : ascii :=
  match get (Z.to_nat v) hextable with
  | Some c => c
  | None => "0"%char
  end.

(** [hex.EncodeToString]: two lower-case digits per byte. *)
Fixpoint EncodeToString (src : list Z) : string :=
  match src with
  | [] => ""
  | v :: rest =>
      String (digit (Z.shiftr v 4)) (String (digit (Z.land v 15)) (EncodeToString rest))
  end.

End hex.

(** ** time.Time and its JSON form *)

Module time.

(** A [time.Time] denotes an instant and a zone offset. [abs_sec] counts
    the seconds since January 1 of year 1, 00:00:00 UTC, [nsec] the
    nanoseconds within the second, [offset] the seconds east of UTC. *)
Record Time : Type := mkTime { abs_sec : Z; nsec : Z; offset : Z }.

(** [time.Time{}], the zero time. *)
Definition zero : Time := mkTime 0 0 0.

(** The proleptic Gregorian date of the day that is [days] days after
    January 1 of year 1. *)
Definition civil (days : Z) : Z * Z * Z :=
  let z := (days + 306)%Z in
  let era := (z / 146097)%Z in
  let doe := (z mod 146097)%Z in
  let yoe := ((doe - doe / 1460 + doe / 36524 - doe / 146096) / 365)%Z in
  let doy := (doe - (365 * yoe + yoe / 4 - yoe / 100))%Z in
  let mp := ((5 * doy + 2) / 153)%Z in
  let d := (doy - (153 * mp + 2) / 5 + 1)%Z in
  let m := if (mp <? 10)%Z then (mp + 3)%Z else (mp - 9)%Z in
  let y := (yoe + era * 400 + (if (m <=? 2)%Z then 1 else 0))%Z in
  (y, m, d).

Definition local_sec (t : Time) : Z := (abs_sec t + offset t)%Z.
Definition Year (t : Time) : Z := fst (fst (civil (local_sec t / 86400))).

Fixpoint zeros (n : nat) : string :=
  match n with O => "" | S k => String "0" (zeros k) end.

(** [appendInt]: the decimal digits of a non-negative [x], padded with
    zeros on the left to [width] digits. *)
Fixpoint digits (fuel : nat) (x : Z) (acc : string) : string :=
  match fuel with
  | O => acc
  | S k =>
      let acc' := String (chr (48 + x mod 10)) acc in
      if (x <? 10)%Z then acc' else digits k (x / 10) acc'
  end.

Definition appendInt (x : Z) (width : nat) : string :=
  let ds := digits (S (Z.to_nat (Z.log2 x))) x "" in
  zeros (width - length ds) ++ ds.

(** The fraction of [.999999999]: nothing for a whole second, otherwise
    nine digits without the trailing zeros. [n] bounds the digits left. *)
Fixpoint trim_zeros (n : nat) (x : Z) (width : nat) : string :=
  match n with
  | O => appendInt x width
  | S k =>
      if (x mod 10 =? 0)%Z then trim_zeros k (x / 10) (width - 1)
      else appendInt x width
  end.

Definition fraction (ns : Z) : string :=
  if (ns =? 0)%Z then "" else "." ++ trim_zeros 9 ns 9.

(** The zone of [Z07:00]. *)
Definition zone (off : Z) : string :=
  if (off =? 0)%Z then "Z"
  else
    let z := Z.quot off 60 in
    let sign := if (z <? 0)%Z then "-" else "+" in
    let z := Z.abs z in
    sign ++ appendInt (z / 60) 2 ++ ":" ++ appendInt (z mod 60) 2.

(** [t.Format(time.RFC3339Nano)], for a year of four digits. *)
Definition FormatRFC3339Nano (t : Time) : string :=
  let ls := local_sec t in
  let '(y, m, d) := civil (ls / 86400) in
  let sod := (ls mod 86400)%Z in
  appendInt y 4 ++ "-" ++ appendInt m 2 ++ "-" ++ appendInt d 2 ++ "T" ++
  appendInt (sod / 3600) 2 ++ ":" ++ appendInt (sod mod 3600 / 60) 2 ++ ":" ++
  appendInt (sod mod 60) 2 ++ fraction (nsec t) ++ zone (offset t).

(** [Time.MarshalJSON]: an error when the year is outside [0,9999]. *)
Definition MarshalJSON (t : Time) : result string :=
  let y := Year t in
  if (y <? 0)%Z || (10000 <=? y)%Z then Panic MarshalError
  else Ok (str1 dquote ++ FormatRFC3339Nano t ++ str1 dquote).

End time.

(** ** encoding/json *)

Module json.

(** [htmlSafeSet]: the ASCII bytes that [json.Marshal] copies as they
    are. *)
Definition htmlSafe (b : Z) : bool :=
  utf8.in_range 32 127 b &&
  negb ((b =? 34) || (b =? 38) || (b =? 60) || (b =? 62) || (b =? 92))%Z.

(** The escape of an ASCII byte outside [htmlSafeSet]. *)
Definition escape (b : Z) : string :=
  str1 bslash ++
  (if ((b =? 92) || (b =? 34))%Z then str1 (chr b)
   else if (b =? 10)%Z then "n"
   else if (b =? 13)%Z then "r"
   else if (b =? 9)%Z then "t"
   else "u00" ++ str1 (hex.digit (Z.shiftr b 4)) ++ str1 (hex.digit (Z.land b 15))).

(** What the encoder writes for one rune of the input: a safe ASCII byte
    and a valid multi-byte rune are copied, an invalid byte becomes
    the escape of U+FFFD, the line and paragraph separators are escaped. *)
Definition encodeRune (rs : Z * string) : string :=
  let '(r, raw) := rs in
  if (r <? utf8.RuneSelf)%Z then (if htmlSafe r then raw else escape r)
  else if (r =? utf8.RuneError)%Z && (length raw =? 1)%nat then str1 bslash ++ "ufffd"
  else if (r =? 8232)%Z || (r =? 8233)%Z
  then str1 bslash ++ "u202" ++ str1 (hex.digit (Z.land r 15))
  else raw.

Definition encodeString (s : string) : string :=
  str1 dquote ++ String.concat "" (map encodeRune (utf8.runes s)) ++ str1 dquote.

Definition encodeBool (b : bool) : string := if b then "true" else "false".

(** One member of an object: the key is a Go field name, which needs no
    escape. *)
Definition member (key value : string) : string :=
  str1 dquote ++ key ++ str1 dquote ++ ":" ++ value.

Definition object (members : list string) : string :=
  "{" ++ strings.Join members "," ++ "}".

End json.

(** ** path/filepath, for a host whose path separator is the slash *)

Module filepath.

(** One path element pushed on the elements kept so far (the last one
    first): empty and [.] elements vanish, [..] removes the element before
    it, unless there is none or it is itself a [..]. *)
Definition push (rooted : bool) (stack : list string) (elem : string) : list string :=
  if (elem =? "") || (elem =? ".") then stack
  else if elem =? ".." then
    match stack with
    | top :: rest => if top =? ".." then elem :: stack else rest
    | [] => if rooted then [] else [elem]
    end
  else elem :: stack.

(** [filepath.Clean]. *)
Definition Clean (path : string) : string :=
  let rooted := prefix "/" path in
  let kept := rev (fold_left (push rooted) (Split path "/") []) in
  let body := strings.Join kept "/" in
  if rooted then "/" ++ body
  else if body =? "" then "." else body.

(** [filepath.Join]: the elements from the first non-empty one on, joined
    by the separator and cleaned; the empty string when all are empty. *)
Fixpoint Join (elem : list string) : string :=
  match elem with
  | [] => ""
  | e :: rest => if e =? "" then Join rest else Clean (strings.Join elem "/")
  end.

End filepath.

(** ** os/exec and the host of the run *)

Module exec.

(** An [exec.Cmd]: the program, its arguments, and the environment when
    the caller sets one ([None]: the process environment is inherited). *)
Record Cmd : Type := mkCmd { Name : string; Args : list string; Env : option (list string) }.

Definition Command (name : string) (arg : list string) : Cmd := mkCmd name arg None.

End exec.

(** What the script reads from the machine it runs on: the host platform,
    the number of processors, the clock, the process environment, and the
    external programs.  [exec_Output] is [Cmd.Output], the standard output
    of a command that succeeded; [exec_Run] tells whether a command
    succeeds ([Cmd.Run] and [Cmd.CombinedOutput] return no error).  A
    program answers the same way each time it is asked during a run. *)
Record Host : Type := mkHost {
  runtime_GOOS : string;
  runtime_NumCPU : nat;
  time_Now : time.Time;
  os_Environ : list string;
  exec_Output : exec.Cmd -> option string;
  exec_Run : exec.Cmd -> bool
}.

(** ** The configuration of one build *)

Definition out : string := "dist".

Record Config : Type := mkConfig {
  Name : string;
  GoVersion : string;
  GOOS : string;
  LinkMode : string;
  StripDebug : bool;
  TrimPath : bool;
  BuildTime : time.Time
}.

(** [json.Marshal] of a [Config]: an object with one member per field, in
    the order of the declaration. *)
Definition Config_members (c : Config) (buildTime : string) : list (string * string) :=
  [ ("Name", json.encodeString (Name c));
    ("GoVersion", json.encodeString (GoVersion c));
    ("GOOS", json.encodeString (GOOS c));
    ("LinkMode", json.encodeString (LinkMode c));
    ("StripDebug", json.encodeBool (StripDebug c));
    ("TrimPath", json.encodeBool (TrimPath c));
    ("BuildTime", buildTime) ].

Definition json_Marshal (c : Config) : result string :=
  t <- time.MarshalJSON (BuildTime c) ;;
  Ok (json.object (map (fun kv => json.member (fst kv) (snd kv)) (Config_members c t))).

(** [json.MarshalIndent] with an indent of two spaces: one member per line, a
    space after each colon. *)
Definition json_MarshalIndent (c : Config) : result string :=
  let nl := str1 (chr 10) in
  t <- time.MarshalJSON (BuildTime c) ;;
  Ok ("{" ++ nl ++ "  " ++
      strings.Join
        (map (fun kv => str1 dquote ++ fst kv ++ str1 dquote ++ ": " ++ snd kv)
           (Config_members c t))
        ("," ++ nl ++ "  ")
      ++ nl ++ "}").

(** The copy of [c] whose [BuildTime] is [time.Time{}]. *)
Definition snapshot (c : Config) : Config :=
  mkConfig (Name c) (GoVersion c) (GOOS c) (LinkMode c) (StripDebug c) (TrimPath c) time.zero.

(** The method [OutputPath] of [Config]. *)
Definition OutputPath (c : Config) : result string :=
  lnk <- slice_to (LinkMode c) 3 ;;
  let name := Name c ++ "-" ++ GoVersion c ++ "-" ++ GOOS c ++ "-" ++ lnk ++ "lnk" in
  let name := if StripDebug c then name ++ "-strip" else name in
  let name := if TrimPath c then name ++ "-trimpath" else name in
  let snapshot := snapshot c in
  b <- json_Marshal snapshot ;;
  let h := fnv.New32a in
  let h := fnv.Write h b in
  let name := name ++ "-" ++ hex.EncodeToString (fnv.Sum h) in
  let name := if GOOS c =? "windows" then name ++ ".exe" else name in
  Ok (filepath.Join [out; name]).

(** The fingerprint of a configuration: the hash that [OutputPath] appends
    to the name, that is the lower-case hexadecimal FNV-1a hash of the JSON
    form of the configuration with [BuildTime] zeroed. *)
Definition fingerprint (c : Config) : result string :=
  b <- json_Marshal (snapshot c) ;;
  Ok (hex.EncodeToString (fnv.Sum (fnv.Write fnv.New32a b))).

(** The method [Cmd] of [Config]. *)
Definition Cmd (h : Host) (c : Config) : result exec.Cmd :=
  b <- json_MarshalIndent c ;;
  let ldflags := "-X 'main.info=" ++ b ++ "' -linkmode=" ++ LinkMode c in
  let ldflags := if StripDebug c then ldflags ++ " -s -w" else ldflags in
  o <- OutputPath c ;;
  let args := ["build"; "-o"; o; "-ldflags"; ldflags] in
  let args := if TrimPath c then (args ++ ["-trimpath"])%list else args in
  let args := (args ++ ["main.go"])%list in
  let cmd := exec.Command (GoVersion c) args in
  Ok (exec.mkCmd (exec.Name cmd) (exec.Args cmd) (Some (os_Environ h ++ [("GOOS=" ++ GOOS c)%string])%list)).

(** [goVersion]: the third field of what [exe version] prints. *)
Definition goVersion (h : Host) (exe : string) : result string :=
  match exec_Output h (exec.Command exe ["version"]) with
  | None => Panic (ExecError exe)
  | Some b => index_at (bytes.Fields b) 2
  end.

(** [mustRunCmd] and [mustRun]: a command that fails is a panic.  The
    deadline of two minutes that [mustRun] sets is part of how the host
    answers. *)
Definition mustRunCmd (h : Host) (cmd : exec.Cmd) : result unit :=
  if exec_Run h cmd then Ok tt else Panic (ExecError (exec.Name cmd)).

Definition mustRun (h : Host) (name : string) (arg : list string) : result unit :=
  mustRunCmd h (exec.Command name arg).

(** The path that [upx] writes to: [out] at the point of the call to
    [mustRun]. *)
Definition upx_out (exe : string) : string :=
  let out := strings.TrimSuffix exe ".exe" in
  let out := out ++ "-upx" in
  if strings.HasSuffix exe ".exe" then out ++ ".exe" else out.

(** [upx]. *)
Definition upx (h : Host) (exe : string) : result unit :=
  let out := upx_out exe in
  mustRun h "upx" ["-qq"; "-f"; "-o"; out; exe].

(** ** The main goroutine

    The loops of [main] run in the main goroutine and start one goroutine
    per configuration that passes the filters.  A computation of the main
    goroutine takes the goroutines started so far, in order, and returns a
    value or panics, together with the goroutines started when it stops.
    How the goroutines then run, and how the semaphore admits them, is the
    subject of [sched] below. *)

Definition M (A : Type) : Type := list Config -> result A * list Config.

Definition ret {A : Type} (a : A) : M A := fun started => (Ok a, started).

Definition lift {A : Type} (r : result A) : M A := fun started => (r, started).

Definition throw {A : Type} (p : panic) : M A := lift (Panic p).

Definition bindM {A B : Type} (m : M A) (k : A -> M B) : M B :=
  fun started =>
    match m started with
    | (Ok a, started') => k a started'
    | (Panic p, started') => (Panic p, started')
    end.

Notation "x <~ m ;; k" := (bindM m (fun x => k))
  (at level 61, m at next level, right associativity).

(** [sem <- struct{}{}; go func() { ... }()]: one more goroutine, for the
    configuration [cfg] of this iteration. *)
Definition go (cfg : Config) : M unit := fun started => (Ok tt, (started ++ [cfg])%list).

(** [for _, x := range xs { body }]. *)
Fixpoint for_range {A : Type} (xs : list A) (body : A -> M unit) : M unit :=
  match xs with
  | [] => ret tt
  | x :: rest => _ <~ body x ;; for_range rest body
  end.

(** The body of the innermost loop of [main]; a [continue] ends it. *)
Definition loop_body (h : Host) (name : string) (buildTime : time.Time)
    (exe GOOS : string) (trimpath : bool) (linkmode : string) (strip : bool) : M unit :=
  version <~ lift (goVersion h exe) ;;
  if negb (version =? exe) then throw (InconsistentGoVersion exe version)
  else
    field <~ lift (index_at (Split version ".") 1) ;;
    v <~ lift (match strconv.Atoi field with
               | Some v => Ok v
               | None => Panic (NumError field)
               end) ;;
    if trimpath && (v <? 13)%Z then ret tt
    else if (linkmode =? "external") && negb (runtime_GOOS h =? GOOS) then ret tt
    else
      let cfg := mkConfig name version GOOS linkmode strip trimpath buildTime in
      go cfg.

(** The five axes of the matrix. *)
Record Axes : Type := mkAxes {
  versions : list string;
  platforms : list string;
  trimpaths : list bool;
  linkmodes : list string;
  strips : list bool
}.

(** The five nested loops of [main], over any axes. *)
Definition enumerate (h : Host) (name : string) (buildTime : time.Time) (ax : Axes) : M unit :=
  for_range (versions ax) (fun exe =>
    for_range (platforms ax) (fun GOOS =>
      for_range (trimpaths ax) (fun trimpath =>
        for_range (linkmodes ax) (fun linkmode =>
          for_range (strips ax) (fun strip =>
            loop_body h name buildTime exe GOOS trimpath linkmode strip))))).

(** The axes that [main] has as literals. *)
Definition main_axes : Axes :=
  mkAxes ["go1.10.8"; "go1.11.13"; "go1.12.17"; "go1.13.8"; "go1.14"]
         ["linux"; "darwin"; "windows"]
         [false; true]
         ["internal"; "external"]
         [false; true].

(** The loops of [main], as [main] runs them.  [installMissingToolchains]
    has returned by then: the host is the machine as the loops find it. *)
Definition main_loops (h : Host) : M unit := enumerate h "hello" (time_Now h) main_axes.

(** The goroutines that a run of the loops starts, and how the loops end. *)
Definition enumerated (h : Host) (name : string) (buildTime : time.Time) (ax : Axes) : list Config :=
  snd (enumerate h name buildTime ax []).

Definition outcome (h : Host) (name : string) (buildTime : time.Time) (ax : Axes) : result unit :=
  fst (enumerate h name buildTime ax []).

(** [hasUPX] and the work of one goroutine, up to its release of the
    semaphore.  What the goroutine prints is left out. *)
Definition hasUPX (h : Host) : bool := exec_Run h (exec.Command "upx" ["-V"]).

Definition task (h : Host) (cfg : Config) : result unit :=
  _ <- OutputPath cfg ;;
  cmd <- Cmd h cfg ;;
  _ <- mustRunCmd h cmd ;;
  if hasUPX h then (o <- OutputPath cfg ;; upx h o) else Ok tt.

(** ** The admission gate

    The interleavings of the main goroutine with the goroutines it starts,
    as a transition system.  [sem] is a buffered channel of capacity [cap]:
    a send blocks while the buffer is full, a receive while it is empty. *)

Module sched.

(** Where the main goroutine is. *)
Inductive main_pc : Type :=
| Looping (todo : list Config) (last : result unit)
    (* in the loops: the goroutines still to start and how the loops end *)
| Starting (cfg : Config) (todo : list Config) (last : result unit)
    (* between [sem <- struct{}{}] and the [go] statement *)
| Draining (n : nat)      (* in the final loop, with [n] sends to go *)
| Returned                (* [main] has returned *)
| Crashed (p : panic).    (* a panic has ended the process *)

Record state : Type := mkState {
  pc : main_pc;
  sem : nat;                 (* len(sem): the slots taken *)
  working : list Config;     (* goroutines started, their work not completed *)
  releasing : nat;           (* goroutines whose work is done, before [<-sem] *)
  completed : list Config    (* goroutines that have finished their work *)
}.

Definition init (todo : list Config) (last : result unit) : state :=
  mkState (Looping todo last) 0 [] 0 [].

Inductive step (cap : nat) (work : Config -> result unit) : state -> state -> Prop :=
| step_acquire cfg todo last n w r d :
    n < cap ->
    step cap work (mkState (Looping (cfg :: todo) last) n w r d)
                  (mkState (Starting cfg todo last) (S n) w r d)
| step_go cfg todo last n w r d :
    step cap work (mkState (Starting cfg todo last) n w r d)
                  (mkState (Looping todo last) n (cfg :: w) r d)
| step_work_done p n w1 cfg w2 r d :
    work cfg = Ok tt ->
    step cap work (mkState p n (w1 ++ cfg :: w2) r d)
                  (mkState p n (w1 ++ w2) (S r) (cfg :: d))
| step_work_panic p e n w1 cfg w2 r d :
    work cfg = Panic e ->
    step cap work (mkState p n (w1 ++ cfg :: w2) r d)
                  (mkState (Crashed e) n (w1 ++ cfg :: w2) r d)
| step_release p n w r d :
    step cap work (mkState p (S n) w (S r) d)
                  (mkState p n w r d)
| step_loops_panic e n w r d :
    step cap work (mkState (Looping [] (Panic e)) n w r d)
                  (mkState (Crashed e) n w r d)
| step_loops_end n w r d :
    step cap work (mkState (Looping [] (Ok tt)) n w r d)
                  (mkState (Draining cap) n w r d)
| step_drain k n w r d :
    n < cap ->
    step cap work (mkState (Draining (S k)) n w r d)
                  (mkState (Draining k) (S n) w r d)
| step_return n w r d :
    step cap work (mkState (Draining 0) n w r d)
                  (mkState Returned n w r d).

(** The process has ended: no goroutine moves any more. *)
Definition ended (s : state) : bool :=
  match pc s with
  | Returned | Crashed _ => true
  | _ => false
  end.

(** A step of the program: a step of some goroutine of a live process. *)
Definition run_step (cap : nat) (work : Config -> result unit) (s s' : state) : Prop :=
  ended s = false /\ step cap work s s'.

Inductive reachable (cap : nat) (work : Config -> result unit) (s0 : state) : state -> Prop :=
| reach_init : reachable cap work s0 s0
| reach_step s s' : reachable cap work s0 s -> run_step cap work s s' -> reachable cap work s0 s'.

(** The slots that the main goroutine itself holds. *)
Definition main_slots (cap : nat) (p : main_pc) : nat :=
  match p with
  | Looping _ _ => 0
  | Starting _ _ _ => 1
  | Draining n => cap - n
  | Returned => cap
  | Crashed _ => 0
  end.

End sched.

(** The run of [main] on a host: the loops decide which goroutines start,
    the semaphore has [runtime.NumCPU()] slots. *)
Definition main_init (h : Host) : sched.state :=
  sched.init (snd (main_loops h [])) (fst (main_loops h [])).

Definition main_reachable (h : Host) : sched.state -> Prop :=
  sched.reachable (runtime_NumCPU h) (task h) (main_init h).

(** ** The earlier revision of the script

    The earlier revision of [build.go] names the toolchain by a [GoExe]
    field of its own, which is part of the JSON form and so of the hash, and
    its loops take the version that the toolchain reports without comparing
    it with the name of the executable.  Its loops, its semaphore and the
    output path of its [upx] are those of [build.go]. *)

Module legacy.

Record Config : Type := mkConfig {
  Name : string;
  GoExe : string;
  GoVersion : string;
  GOOS : string;
  LinkMode : string;
  StripDebug : bool;
  TrimPath : bool;
  BuildTime : time.Time
}.

Definition Config_members (c : Config) (buildTime : string) : list (string * string) :=
  [ ("Name", json.encodeString (Name c));
    ("GoExe", json.encodeString (GoExe c));
    ("GoVersion", json.encodeString (GoVersion c));
    ("GOOS", json.encodeString (GOOS c));
    ("LinkMode", json.encodeString (LinkMode c));
    ("StripDebug", json.encodeBool (StripDebug c));
    ("TrimPath", json.encodeBool (TrimPath c));
    ("BuildTime", buildTime) ].

Definition json_Marshal (c : Config) : result string :=
  t <- time.MarshalJSON (BuildTime c) ;;
  Ok (json.object (map (fun kv => json.member (fst kv) (snd kv)) (Config_members c t))).

Definition snapshot (c : Config) : Config :=
  mkConfig (Name c) (GoExe c) (GoVersion c) (GOOS c) (LinkMode c) (StripDebug c) (TrimPath c)
    time.zero.

(** The method [OutputPath] of the earlier [Config]. *)
Definition OutputPath (c : Config) : result string :=
  lnk <- slice_to (LinkMode c) 3 ;;
  let name := Name c ++ "-" ++ GoVersion c ++ "-" ++ GOOS c ++ "-" ++ lnk ++ "lnk" in
  let name := if StripDebug c then name ++ "-strip" else name in
  let name := if TrimPath c then name ++ "-trimpath" else name in
  let snapshot := snapshot c in
  b <- json_Marshal snapshot ;;
  let h := fnv.New32a in
  let h := fnv.Write h b in
  let name := name ++ "-" ++ hex.EncodeToString (fnv.Sum h) in
  let name := if GOOS c =? "windows" then name ++ ".exe" else name in
  Ok (filepath.Join [out; name]).

(** The body of the innermost loop of the earlier [main]: a panic, a
    [continue] ([None]) or the configuration of the goroutine it starts. *)
Definition loop_body (h : Host) (name : string) (buildTime : time.Time)
    (exe GOOS : string) (trimpath : bool) (linkmode : string) (strip : bool) :
    result (option Config) :=
  version <- goVersion h exe ;;
  field <- index_at (Split version ".") 1 ;;
  v <- match strconv.Atoi field with
       | Some v => Ok v
       | None => Panic (NumError field)
       end ;;
  if trimpath && (v <? 13)%Z then Ok None
  else if (linkmode =? "external") && negb (runtime_GOOS h =? GOOS) then Ok None
  else Ok (Some (mkConfig name exe version GOOS linkmode strip trimpath buildTime)).

(** The executables that the earlier [main] has as literals. *)
Definition main_exes : list string := ["go1.10"; "go1.11"; "go1.12"; "go1.13"; "go"].

End legacy.

(** ** Installing the toolchains

    [installMissingToolchains] changes the machine: the commands that
    [mustRun] runs install toolchains.  [effect h cmd] is the host after
    [cmd] has run on the host [h]; a run is the host and the commands
    that [mustRun] has run, in order.  The query [exe version] of
    [goVersion] leaves the machine as it is.  What the function prints is
    left out. *)

Definition Effect : Type := Host -> exec.Cmd -> Host.

Definition Run : Type := (Host * list exec.Cmd)%type.

(** [mustRun] on a machine that changes. *)
Definition mustRun_on (effect : Effect) (st : Run) (name : string) (arg : list string) :
    result unit * Run :=
  let cmd := exec.Command name arg in
  (mustRun (fst st) name arg, (effect (fst st) cmd, (snd st ++ [cmd])%list)).

(** The function literal of [installMissingToolchains]: [goVersion] under
    a deferred [recover], which turns a panic into the empty string. *)
Definition installed (h : Host) (version : string) : string :=
  match goVersion h version with
  | Ok v => v
  | Panic _ => ""
  end.

(** [installMissingToolchains]. *)
Fixpoint installMissingToolchains (effect : Effect) (st : Run) (versions : list string) :
    result unit * Run :=
  match versions with
  | [] => (Ok tt, st)
  | version :: rest =>
      if negb (installed (fst st) version =? version) then
        match mustRun_on effect st "go" ["get"; "golang.org/dl/" ++ version] with
        | (Panic p, st1) => (Panic p, st1)
        | (Ok _, st1) =>
            match mustRun_on effect st1 version ["download"] with
            | (Panic p, st2) => (Panic p, st2)
            | (Ok _, st2) => installMissingToolchains effect st2 rest
            end
        end
      else installMissingToolchains effect st rest
  end.

(** * The naming scheme in the words of the specification *)

(** Two configurations that are equal in every field except [BuildTime]. *)
Definition same_but_BuildTime (c1 c2 : Config) : Prop :=
  Name c1 = Name c2 /\ GoVersion c1 = GoVersion c2 /\ GOOS c1 = GOOS c2 /\
  LinkMode c1 = LinkMode c2 /\ StripDebug c1 = StripDebug c2 /\ TrimPath c1 = TrimPath c2.

Definition quoted (s : string) : string := str1 dquote ++ s ++ str1 dquote.

(** The canonical serialization: the fields in the order of the
    declaration, [BuildTime] zeroed. *)
Definition canonical (c : Config) : string :=
  "{" ++ quoted "Name" ++ ":" ++ json.encodeString (Name c) ++ "," ++
  quoted "GoVersion" ++ ":" ++ json.encodeString (GoVersion c) ++ "," ++
  quoted "GOOS" ++ ":" ++ json.encodeString (GOOS c) ++ "," ++
  quoted "LinkMode" ++ ":" ++ json.encodeString (LinkMode c) ++ "," ++
  quoted "StripDebug" ++ ":" ++ json.encodeBool (StripDebug c) ++ "," ++
  quoted "TrimPath" ++ ":" ++ json.encodeBool (TrimPath c) ++ "," ++
  quoted "BuildTime" ++ ":" ++ quoted "0001-01-01T00:00:00Z" ++ "}".

(** The 32-bit hash of the canonical serialization, and the eight
    hexadecimal digits of a 32-bit number, the most significant first. *)
Definition hash32 (c : Config) : Z := fnv.Write fnv.offset32 (canonical c).

Definition hex8 (z : Z) : string :=
  String.concat ""
    (map (fun k => str1 (hex.digit (z / 16 ^ k mod 16))) [7; 6; 5; 4; 3; 2; 1; 0])%Z.

(** [{artifactName}-{toolchainVersion}-{targetPlatform}-{first3CharsOfLinkMode}lnk[-strip][-trimpath]-{hashHex}[.exe]]. *)
Definition spec_filename (c : Config) : string :=
  Name c ++ "-" ++ GoVersion c ++ "-" ++ GOOS c ++ "-" ++
  substring 0 3 (LinkMode c) ++ "lnk" ++
  (if StripDebug c then "-strip" else "") ++
  (if TrimPath c then "-trimpath" else "") ++
  "-" ++ hex8 (hash32 c) ++
  (if GOOS c =? "windows" then ".exe" else "").

(** A string without a slash. *)
Fixpoint no_slash (s : string) : bool :=
  match s with
  | EmptyString => true
  | String c t => negb (Ascii.eqb c "/") && no_slash t
  end.

(** The value of a hexadecimal digit. *)
Definition undigit (c : ascii) : Z :=
  let b := byte c in if (b <? 58)%Z then (b - 48)%Z else (b - 87)%Z.

(** A configuration of the matrix of [main], and one that differs from it
    in [LinkMode] only. *)
Definition cfg_internal : Config :=
  mkConfig "hello" "go1.14" "linux" "internal" false false time.zero.

Definition cfg_collides : Config :=
  mkConfig "hello" "go1.14" "linux" "internalfvjfawnb" false false time.zero.

(** * The matrix in the words of the specification *)

(** One combination: version, platform, trim-path, link mode, strip. *)
Definition Combo : Type := (string * string * bool * string * bool)%type.

(** The cartesian product of the axes, in the order of the loops. *)
Definition product (ax : Axes) : list Combo :=
  flat_map (fun exe =>
    flat_map (fun GOOS =>
      flat_map (fun trimpath =>
        flat_map (fun linkmode =>
          map (fun strip => (exe, GOOS, trimpath, linkmode, strip)) (strips ax))
          (linkmodes ax))
        (trimpaths ax))
      (platforms ax))
    (versions ax).

(** The minor version number: the second dot-delimited component of the
    version string, read as a decimal number. *)
Definition minor (version : string) : option Z :=
  match nth_error (Split version ".") 1 with
  | Some field => strconv.Atoi field
  | None => None
  end.

(** The trim-path support filter: trim-path is not requested below minor
    version 13. *)
Definition trimpath_supported (version : string) (trimpath : bool) : bool :=
  negb trimpath ||
  match minor version with
  | Some v => (13 <=? v)%Z
  | None => false
  end.

(** The cross-link filter: external linking only for the host platform. *)
Definition can_link (host GOOS linkmode : string) : bool :=
  negb (linkmode =? "external") || (host =? GOOS).

Definition feasible (host : string) (cb : Combo) : bool :=
  let '(exe, GOOS, trimpath, linkmode, _) := cb in
  trimpath_supported exe trimpath && can_link host GOOS linkmode.

Definition to_config (name : string) (buildTime : time.Time) (cb : Combo) : Config :=
  let '(exe, GOOS, trimpath, linkmode, strip) := cb in
  mkConfig name exe GOOS linkmode strip trimpath buildTime.

(** The matrix: the product minus what the two filters exclude. *)
Definition matrix (host name : string) (buildTime : time.Time) (ax : Axes) : list Config :=
  map (to_config name buildTime) (filter (feasible host) (product ax)).

(** A host whose toolchains are consistent with the axes: each one reports
    the version it is named after, and that version has a minor number. *)
Definition consistent (h : Host) (ax : Axes) : Prop :=
  forall exe, In exe (versions ax) -> goVersion h exe = Ok exe /\ minor exe <> None.


(** The inner loops run at least once. *)
Definition inner_nonempty (ax : Axes) : Prop :=
  platforms ax <> [] /\ trimpaths ax <> [] /\ linkmodes ax <> [] /\ strips ax <> [].

(** The synthetic axes of the end-to-end scenario, on a linux host where
    the toolchain named [v] prints [go version v linux/amd64]. *)
Definition synthetic_axes : Axes :=
  mkAxes ["1.12"; "1.13"] ["linux"; "windows"] [false; true] ["internal"] [false].

Definition synthetic_host : Host :=
  mkHost "linux" 4 (time.mkTime 63718531199 0 0) []
    (fun cmd => Some ("go version " ++ exec.Name cmd ++ " linux/amd64" ++ str1 (chr 10)))
    (fun _ => true).

(** The body of the innermost loop, on one combination. *)
Definition body (h : Host) (name : string) (buildTime : time.Time) (cb : Combo) : M unit :=
  let '(exe, GOOS, trimpath, linkmode, strip) := cb in
  loop_body h name buildTime exe GOOS trimpath linkmode strip.

(** A computation that only adds to the goroutines started. *)
Definition appends {A : Type} (m : M A) : Prop :=
  forall started, m started = (fst (m []), (started ++ snd (m []))%list).


(** The goroutines that the main goroutine has still to start. *)
Definition pending (p : sched.main_pc) : list Config :=
  match p with
  | sched.Looping todo _ => todo
  | sched.Starting cfg todo _ => cfg :: todo
  | _ => []
  end.

(** The invariant of the admission gate: the slots taken are at most the
    capacity, and they cover the goroutines at work, those about to release
    and the slots of the main goroutine; while the process is alive, the
    goroutines pending, at work and completed are those of the loops. *)
Definition gate_invariant (cap : nat) (todo : list Config) (s : sched.state) : Prop :=
  sched.sem s <= cap /\
  List.length (sched.working s) + sched.releasing s + sched.main_slots cap (sched.pc s)
    <= sched.sem s /\
  (forall n, sched.pc s = sched.Draining n -> n <= cap) /\
  match sched.pc s with
  | sched.Crashed _ => True
  | p => Permutation (pending p ++ sched.working s ++ sched.completed s) todo
  end.

(** A host on which the executable [go] is a toolchain of version 1.14. *)
Definition go_host : Host :=
  mkHost "linux" 4 time.zero []
    (fun cmd => Some "go version go1.14 linux/amd64")
    (fun _ => true).

(** * Reading the canonical serialization back *)

(** A string all of whose bytes are outside ASCII. *)
Fixpoint high (s : string) : bool :=
  match s with
  | EmptyString => true
  | String c t => (128 <=? byte c)%Z && high t
  end.

(** The UTF-8 encoding of the separators U+2028 and U+2029. *)
Definition sep_bytes (r : Z) : string :=
  String (chr 226) (String (chr 128) (String (chr (r - 8064)) "")).

(** [s[n:]]. *)
Definition drop (n : nat) (s : string) : string := substring n (length s - n) s.

(** A rune that is not an invalid byte. *)
Definition valid_rune (rs : Z * string) : bool :=
  negb ((fst rs =? utf8.RuneError)%Z && (length (snd rs) =? 1)%nat).

(** A string that is valid UTF-8: none of its runes is an invalid byte. *)
Definition valid_utf8 (s : string) : bool := forallb valid_rune (utf8.runes s).

(** The character that a backslash and [e] stand for. *)
Definition unescape (e : ascii) : ascii :=
  if Ascii.eqb e "n" then chr 10
  else if Ascii.eqb e "r" then chr 13
  else if Ascii.eqb e "t" then chr 9
  else e.

(** The bytes that a [u] escape of the encoder stands for. *)
Definition rune_bytes (v : Z) : string :=
  if (v <? 128)%Z then str1 (chr v) else sep_bytes v.

(** The string read so far, put in front of what the rest reads. *)
Definition prepend (raw : string) (r : option (string * string)) : option (string * string) :=
  match r with
  | Some (a, b) => Some (raw ++ a, b)
  | None => None
  end.

(** The string up to its closing quote, and what follows the quote. *)
Fixpoint unquote (s : string) : option (string * string) :=
  match s with
  | EmptyString => None
  | String c t =>
      if Ascii.eqb c dquote then Some ("", t)
      else if Ascii.eqb c bslash then
        match t with
        | String e t' =>
            if Ascii.eqb e "u" then
              match t' with
              | String d3 (String d2 (String d1 (String d0 t''))) =>
                  prepend
                    (rune_bytes (4096 * undigit d3 + 256 * undigit d2 + 16 * undigit d1 + undigit d0))
                    (unquote t'')
              | _ => None
              end
            else prepend (str1 (unescape e)) (unquote t')
        | EmptyString => None
        end
      else prepend (str1 c) (unquote t)
  end.

(** What [json.encodeString] writes between the quotes. *)
Definition encodeRunes (s : string) : string :=
  String.concat "" (map json.encodeRune (utf8.runes s)).

(** A configuration whose strings are valid UTF-8. *)
Definition valid_config (c : Config) : Prop :=
  valid_utf8 (Name c) = true /\ valid_utf8 (GoVersion c) = true /\
  valid_utf8 (GOOS c) = true /\ valid_utf8 (LinkMode c) = true.

(** * The rest of the script: vocabulary *)

(** A string without the byte [ch]. *)
Fixpoint lacks (ch : ascii) (s : string) : bool :=
  match s with
  | EmptyString => true
  | String c t => negb (Ascii.eqb c ch) && lacks ch t
  end.

(** A configuration whose name, version and platform have neither a dash
    nor a slash, and whose link mode has no slash. *)
Definition plain_config (c : Config) : Prop :=
  lacks "-" (Name c) = true /\ lacks "-" (GoVersion c) = true /\ lacks "-" (GOOS c) = true /\
  no_slash (Name c ++ GoVersion c ++ GOOS c ++ LinkMode c) = true.

(** The flags of the file name. *)
Definition flags (strip trim : bool) : string :=
  (if strip then "-strip" else "") ++ (if trim then "-trimpath" else "").

(** Axes whose values the file name keeps apart: the name, the versions and
    the platforms have neither a dash nor a slash, the link modes have no
    slash and differ in their first three bytes, and no axis repeats a
    value. *)
Definition plain_axes (name : string) (ax : Axes) : Prop :=
  (lacks "-" name = true /\ no_slash name = true) /\
  (forall v, In v (versions ax) -> lacks "-" v = true /\ no_slash v = true) /\
  (forall g, In g (platforms ax) -> lacks "-" g = true /\ no_slash g = true) /\
  (forall l, In l (linkmodes ax) -> no_slash l = true) /\
  (forall l1 l2, In l1 (linkmodes ax) -> In l2 (linkmodes ax) ->
     substring 0 3 l1 = substring 0 3 l2 -> l1 = l2) /\
  NoDup (versions ax) /\ NoDup (platforms ax) /\ NoDup (trimpaths ax) /\
  NoDup (linkmodes ax) /\ NoDup (strips ax).

(** The file name without its extension. *)
Definition stem (c : Config) : string :=
  Name c ++ "-" ++ GoVersion c ++ "-" ++ GOOS c ++ "-" ++
  substring 0 3 (LinkMode c) ++ "lnk" ++ flags (StripDebug c) (TrimPath c) ++ "-" ++
  hex8 (hash32 c).

(** The value of [-ldflags] for a configuration whose JSON form is [info]. *)
Definition ldflags_of (c : Config) (info : string) : string :=
  "-X 'main.info=" ++ info ++ "' -linkmode=" ++ LinkMode c ++
  (if StripDebug c then " -s -w" else "").

(** The year of [BuildTime] has four digits. *)
Definition year_in_range (c : Config) : Prop :=
  (0 <= time.Year (BuildTime c) < 10000)%Z.

(** An ASCII white-space byte, and a token: a string of ASCII bytes none of
    which is white space. *)
Definition ascii_space (c : ascii) : bool :=
  (byte c <? 128)%Z && unicode.IsSpace (byte c).

Fixpoint token (s : string) : bool :=
  match s with
  | EmptyString => true
  | String c t => (byte c <? 128)%Z && negb (unicode.IsSpace (byte c)) && token t
  end.

Definition field_so_far (cur : option string) : string :=
  match cur with Some f => f | None => "" end.

(** The two commands that install a version. *)
Definition go_get (version : string) : exec.Cmd :=
  exec.Command "go" ["get"; "golang.org/dl/" ++ version].

Definition download (version : string) : exec.Cmd :=
  exec.Command version ["download"].

(** An effect that installs the versions [vs]: a download of one of them
    that succeeds leaves its toolchain reporting the version, and no command
    breaks a toolchain of [vs] that reports its version. *)
Definition installs (effect : Effect) (vs : list string) : Prop :=
  (forall h v, In v vs -> exec_Run h (download v) = true ->
     goVersion (effect h (download v)) v = Ok v) /\
  (forall h cmd v, In v vs -> goVersion h v = Ok v -> goVersion (effect h cmd) v = Ok v).

(** The steps that the main goroutine has still to take. *)
Definition main_steps (cap : nat) (p : sched.main_pc) : nat :=
  match p with
  | sched.Looping todo _ => 4 * List.length todo + cap + 2
  | sched.Starting _ todo _ => 4 * List.length todo + cap + 5
  | sched.Draining n => n + 1
  | sched.Returned => 0
  | sched.Crashed _ => 0
  end.

(** A bound on the steps that a live process can still take. *)
Definition steps_left (cap : nat) (s : sched.state) : nat :=
  if sched.ended s then 0
  else main_steps cap (sched.pc s) + 2 * List.length (sched.working s) + sched.releasing s.

(** A run of [n] steps. *)
Inductive run_of (cap : nat) (work : Config -> result unit) :
    nat -> sched.state -> sched.state -> Prop :=
| run_nil s : run_of cap work 0 s s
| run_cons n s s' s'' :
    sched.run_step cap work s s' -> run_of cap work n s' s'' -> run_of cap work (S n) s s''.

(** While the process is alive the slots taken are exactly those of the
    goroutines at work, of those about to release and of the main
    goroutine. *)
Definition gate_balance (cap : nat) (s : sched.state) : Prop :=
  sched.ended s = false ->
  sched.sem s =
    List.length (sched.working s) + sched.releasing s + sched.main_slots cap (sched.pc s) /\
  (forall n, sched.pc s = sched.Draining n -> n <= cap).

(** The loops end as the run began: the main goroutine keeps [last]. *)
Definition keeps_last (last : result unit) (s : sched.state) : Prop :=
  match sched.pc s with
  | sched.Looping _ l | sched.Starting _ _ l => l = last
  | _ => True
  end.

(** A machine without toolchains on which every command succeeds, and the
    effect of a download: the toolchain then prints its version. *)
Definition bare_host : Host :=
  mkHost "linux" 4 time.zero [] (fun _ => None) (fun _ => true).

Definition has_args (cmd : exec.Cmd) (arg : string) : bool :=
  match exec.Args cmd with
  | [a] => a =? arg
  | _ => false
  end.

Definition install_effect : Effect := fun h cmd =>
  if has_args cmd "download" then
    mkHost (runtime_GOOS h) (runtime_NumCPU h) (time_Now h) (os_Environ h)
      (fun c =>
         if (exec.Name c =? exec.Name cmd) && has_args c "version"
         then Some ("go version " ++ exec.Name cmd ++ " linux/amd64" ++ str1 (chr 10))
         else exec_Output h c)
      (exec_Run h)
  else h.

(** A machine on which no command succeeds. *)
Definition dead_host : Host :=
  mkHost "linux" 4 time.zero [] (fun _ => None) (fun _ => false).

(** A string none of whose bytes is an ASCII white space. *)
Fixpoint spaceless (s : string) : bool :=
  match s with
  | EmptyString => true
  | String c t => negb (ascii_space c) && spaceless t
  end.

(** * Properties *)

(** ** Strings *)

Lemma length_append (s t : string) : length (s ++ t) = length s + length t.
Proof. induction s as [|c s IH]; simpl; [reflexivity | now rewrite IH]. Qed.

Lemma append_assoc (s t u : string) : (s ++ t) ++ u = s ++ (t ++ u).
Proof. induction s as [|c s IH]; simpl; [reflexivity | now rewrite IH]. Qed.

Lemma append_nil_r (s : string) : s ++ "" = s.
Proof. induction s as [|c s IH]; simpl; [reflexivity | now rewrite IH]. Qed.

Lemma substring_append_l (s t : string) : substring 0 (length s) (s ++ t) = s.
Proof.
  induction s as [|c s IH]; simpl.
  - now destruct t.
  - now rewrite IH.
Qed.

Lemma substring_append_r (s t : string) : substring (length s) (length t) (s ++ t) = t.
Proof.
  induction s as [|c s IH]; simpl; [|exact IH].
  rewrite <- (append_nil_r t) at 2. apply substring_append_l.
Qed.

Lemma substring_0_length (s : string) : substring 0 (length s) s = s.
Proof. induction s as [|c s IH]; simpl; [reflexivity | now rewrite IH]. Qed.

Lemma substring_split (n : nat) (s : string) :
  n <= length s -> substring 0 n s ++ substring n (length s - n) s = s.
Proof.
  revert s; induction n as [|n IH]; intros s Hn.
  - rewrite Nat.sub_0_r. replace (substring 0 0 s) with "" by now destruct s.
    apply substring_0_length.
  - destruct s as [|c s]; simpl in *; [lia|]. rewrite IH by lia. reflexivity.
Qed.

Lemma length_substring_0 (n : nat) (s : string) :
  n <= length s -> length (substring 0 n s) = n.
Proof.
  revert s; induction n as [|n IH]; intros [|c s] Hn; simpl in *; try lia; try reflexivity.
  now rewrite IH by lia.
Qed.

Lemma append_inj_l (s t u : string) : s ++ t = s ++ u -> t = u.
Proof. induction s as [|c s IH]; simpl; intros H; [assumption | injection H; auto]. Qed.

Lemma HasSuffix_iff (s suffix : string) :
  strings.HasSuffix s suffix = true <-> exists p, s = p ++ suffix.
Proof.
  unfold strings.HasSuffix. rewrite andb_true_iff, Nat.leb_le, String.eqb_eq. split.
  - intros [Hlen Hsub]. exists (substring 0 (length s - length suffix) s).
    pose proof (substring_split (length s - length suffix) s) as H.
    replace (length s - (length s - length suffix)) with (length suffix) in H by lia.
    rewrite Hsub in H. symmetry. apply H. lia.
  - intros [p ->]. rewrite length_append. split; [lia|].
    replace (length p + length suffix - length suffix) with (length p) by lia.
    apply substring_append_r.
Qed.

Lemma TrimSuffix_append (p suffix : string) : strings.TrimSuffix (p ++ suffix) suffix = p.
Proof.
  unfold strings.TrimSuffix.
  replace (strings.HasSuffix (p ++ suffix) suffix) with true
    by (symmetry; apply HasSuffix_iff; now exists p).
  rewrite length_append.
  replace (length p + length suffix - length suffix) with (length p) by lia.
  apply substring_append_l.
Qed.

(** ** The compression step *)

(** C9. [upx] derives its output path by inserting [-upx] before the
    extension: for a path [p ++ ".exe"] it is [p ++ "-upx" ++ ".exe"], for a
    path that does not end in [.exe] it is the path followed by [-upx]; the
    compressor is run as [upx -qq -f -o out exe], and [out] is never the
    path of the artifact, so the run does not write over the artifact. *)
Theorem upx_output_path (h : Host) (exe : string) :
  (forall p, exe = p ++ ".exe" -> upx_out exe = p ++ "-upx" ++ ".exe") /\
  ((forall p, exe <> p ++ ".exe") -> upx_out exe = exe ++ "-upx") /\
  upx h exe = mustRunCmd h (exec.mkCmd "upx" ["-qq"; "-f"; "-o"; upx_out exe; exe] None) /\
  upx_out exe <> exe.
Proof.
  assert (Hexe : forall p, exe = p ++ ".exe" -> upx_out exe = p ++ "-upx" ++ ".exe").
  { intros p ->. unfold upx_out. rewrite TrimSuffix_append.
    replace (strings.HasSuffix (p ++ ".exe") ".exe") with true
      by (symmetry; apply HasSuffix_iff; now exists p).
    apply append_assoc. }
  assert (Hplain : (forall p, exe <> p ++ ".exe") -> upx_out exe = exe ++ "-upx").
  { intros Hno. unfold upx_out, strings.TrimSuffix.
    destruct (strings.HasSuffix exe ".exe") eqn:E; [|reflexivity].
    apply HasSuffix_iff in E. destruct E as [p Hp]. now elim (Hno p). }
  repeat split; try assumption.
  intros Heq. apply (f_equal length) in Heq.
  destruct (strings.HasSuffix exe ".exe") eqn:E.
  - apply HasSuffix_iff in E. destruct E as [p Hp].
    rewrite (Hexe p Hp), Hp in Heq. repeat rewrite length_append in Heq. simpl in Heq. lia.
  - rewrite Hplain in Heq.
    + rewrite length_append in Heq. simpl in Heq. lia.
    + intros p Hp. assert (strings.HasSuffix exe ".exe" = true)
        by (apply HasSuffix_iff; now exists p). congruence.
Qed.

(** The theorem at two paths, one of each kind. *)
Lemma upx_output_path_witness :
  upx_out "dist/hello.exe" = "dist/hello-upx.exe" /\
  upx_out "dist/hello" = "dist/hello-upx".
Proof.
  split.
  - apply (proj1 (upx_output_path (mkHost "linux" 1 time.zero [] (fun _ => None) (fun _ => true))
                    "dist/hello.exe") "dist/hello"). reflexivity.
  - apply (proj1 (proj2 (upx_output_path (mkHost "linux" 1 time.zero [] (fun _ => None) (fun _ => true))
                    "dist/hello"))).
    intros p Hp.
    assert (E : strings.HasSuffix "dist/hello" ".exe" = true)
      by (apply HasSuffix_iff; now exists p).
    discriminate E.
Defined.

(** ** The output path *)

Lemma MarshalJSON_zero :
  time.MarshalJSON time.zero = Ok (quoted "0001-01-01T00:00:00Z").
Proof. reflexivity. Qed.

Lemma Marshal_snapshot (c : Config) : json_Marshal (snapshot c) = Ok (canonical c).
Proof.
  unfold json_Marshal, snapshot. cbn [BuildTime]. rewrite MarshalJSON_zero.
  cbn [bind]. f_equal.
  unfold canonical, json.object, Config_members, json.member, quoted.
  cbn [map fst snd strings.Join Name GoVersion GOOS LinkMode StripDebug TrimPath].
  repeat rewrite append_assoc. reflexivity.
Qed.

Lemma Write_range (data : string) (h : Z) :
  (0 <= h < 2 ^ 32)%Z -> (0 <= fnv.Write h data < 2 ^ 32)%Z.
Proof.
  revert h; induction data as [|c t IH]; intros h Hh; simpl; [assumption|].
  apply IH. apply Z.mod_pos_bound. reflexivity.
Qed.

Lemma hash32_range (c : Config) : (0 <= hash32 c < 2 ^ 32)%Z.
Proof. apply Write_range. unfold fnv.offset32. lia. Qed.

Lemma EncodeToString_Sum (h : Z) : hex.EncodeToString (fnv.Sum h) = hex8 h.
Proof.
  unfold fnv.Sum, hex8, hex.EncodeToString, str1. cbn [map String.concat append].
  change 255%Z with (Z.ones 8). change 15%Z with (Z.ones 4).
  repeat rewrite Z.land_ones by lia.
  repeat rewrite Z.shiftr_div_pow2 by lia.
  change (2 ^ 8)%Z with 256%Z; change (2 ^ 4)%Z with 16%Z;
  change (2 ^ 24)%Z with 16777216%Z; change (2 ^ 16)%Z with 65536%Z;
  change (16 ^ 7)%Z with 268435456%Z; change (16 ^ 6)%Z with 16777216%Z;
  change (16 ^ 5)%Z with 1048576%Z; change (16 ^ 4)%Z with 65536%Z;
  change (16 ^ 3)%Z with 4096%Z; change (16 ^ 2)%Z with 256%Z;
  change (16 ^ 1)%Z with 16%Z; change (16 ^ 0)%Z with 1%Z.
  repeat (apply f_equal2; [apply f_equal; Z.div_mod_to_equations; lia|]).
  reflexivity.
Qed.

Lemma fingerprint_eq (c : Config) : fingerprint c = Ok (hex8 (hash32 c)).
Proof.
  unfold fingerprint. rewrite Marshal_snapshot. cbn [bind].
  now rewrite EncodeToString_Sum.
Qed.

Lemma OutputPath_eq (c : Config) :
  OutputPath c =
  if (3 <=? length (LinkMode c))%nat then Ok (filepath.Join [out; spec_filename c])
  else Panic (SliceBoundsOutOfRange 3 (length (LinkMode c))).
Proof.
  unfold OutputPath, slice_to.
  destruct (3 <=? length (LinkMode c))%nat; [|reflexivity].
  cbn [bind]. rewrite Marshal_snapshot. cbn [bind].
  rewrite EncodeToString_Sum. do 2 f_equal.
  unfold spec_filename, hash32, fnv.New32a.
  destruct (StripDebug c), (TrimPath c), (GOOS c =? "windows");
    repeat rewrite append_assoc; cbn [append]; repeat rewrite append_nil_r; reflexivity.
Qed.

Lemma digit_In (v : Z) :
  (0 <= v < 16)%Z -> In (hex.digit v) (list_ascii_of_string hex.hextable).
Proof.
  intros Hv.
  assert (H : (v = 0 \/ v = 1 \/ v = 2 \/ v = 3 \/ v = 4 \/ v = 5 \/ v = 6 \/ v = 7 \/
               v = 8 \/ v = 9 \/ v = 10 \/ v = 11 \/ v = 12 \/ v = 13 \/ v = 14 \/ v = 15)%Z)
    by lia.
  repeat (destruct H as [-> | H]; [simpl; tauto|]). subst v. simpl. tauto.
Qed.

Lemma nibble_range (z k : Z) : (0 <= z / 16 ^ k mod 16 < 16)%Z.
Proof. apply Z.mod_pos_bound. reflexivity. Qed.

Lemma no_slash_append (s t : string) : no_slash (s ++ t) = no_slash s && no_slash t.
Proof.
  induction s as [|c s IH]; simpl; [reflexivity|]. rewrite IH. apply andb_assoc.
Qed.

Lemma no_slash_digit (v : Z) : (0 <= v < 16)%Z -> no_slash (str1 (hex.digit v)) = true.
Proof.
  intros Hv. apply digit_In in Hv. simpl in Hv.
  repeat (destruct Hv as [<- | Hv]; [reflexivity|]). contradiction.
Qed.

Lemma no_slash_hex8 (z : Z) : no_slash (hex8 z) = true.
Proof.
  unfold hex8. cbn [map String.concat].
  repeat rewrite no_slash_append.
  repeat rewrite no_slash_digit by apply nibble_range. reflexivity.
Qed.

Lemma length_hex8 (z : Z) : length (hex8 z) = 8.
Proof. reflexivity. Qed.

Lemma prefix_nil (s : string) : prefix "" s = true.
Proof. now destruct s. Qed.

Lemma prefix_cons (a c : ascii) (s t : string) :
  prefix (String a s) (String c t) = Ascii.eqb a c && prefix s t.
Proof.
  cbn [prefix]. destruct (ascii_dec a c) as [->|Hne].
  - now rewrite Ascii.eqb_refl.
  - destruct (Ascii.eqb_spec a c); [contradiction | reflexivity].
Qed.

Lemma genSplit_no_slash (s cur : string) :
  no_slash s = true -> strings.genSplit "/" s 0 cur = [cur ++ s].
Proof.
  revert cur; induction s as [|c s IH]; intros cur Hs; cbn [strings.genSplit no_slash] in *.
  - now rewrite append_nil_r.
  - apply andb_true_iff in Hs. destruct Hs as [Hc Hs].
    rewrite prefix_cons, Ascii.eqb_sym.
    destruct (Ascii.eqb c "/"); [discriminate|]. cbn [andb].
    rewrite IH by assumption. unfold str1. now rewrite append_assoc.
Qed.

Lemma eqb_length_neq (s t : string) : length s <> length t -> (s =? t) = false.
Proof.
  intros H. destruct (String.eqb_spec s t) as [->|]; [now elim H | reflexivity].
Qed.

(** Under the output directory: a name without a slash is joined to
    [dist] by a slash and nothing else changes. *)
Lemma Join_out (name : string) :
  no_slash name = true -> 3 <= length name ->
  filepath.Join [out; name] = out ++ "/" ++ name.
Proof.
  intros Hs Hlen.
  unfold filepath.Join, out. cbn [String.eqb Ascii.eqb Bool.eqb strings.Join].
  unfold filepath.Clean, Split.
  assert (Hsplit : strings.genSplit "/" ("dist" ++ "/" ++ name) 0 "" = ["dist"; name]).
  { cbn. rewrite prefix_nil. now rewrite genSplit_no_slash. }
  rewrite Hsplit. cbn [fold_left]. unfold filepath.push at 2. cbn [String.eqb Ascii.eqb Bool.eqb orb].
  unfold filepath.push.
  rewrite (eqb_length_neq name "") by (simpl; lia).
  rewrite (eqb_length_neq name ".") by (simpl; lia).
  rewrite (eqb_length_neq name "..") by (simpl; lia).
  reflexivity.
Qed.

Lemma length_spec_filename (c : Config) : 3 <= length (spec_filename c).
Proof.
  unfold spec_filename. repeat rewrite length_append. rewrite length_hex8. lia.
Qed.

Lemma no_slash_spec_filename (c : Config) :
  no_slash (Name c ++ GoVersion c ++ GOOS c ++ LinkMode c) = true ->
  no_slash (spec_filename c) = true.
Proof.
  intros H. repeat rewrite no_slash_append in H.
  repeat (apply andb_true_iff in H; destruct H as [? H]).
  unfold spec_filename. repeat rewrite no_slash_append.
  rewrite no_slash_hex8.
  assert (Hl : no_slash (substring 0 3 (LinkMode c)) = true).
  { destruct (LinkMode c) as [|a [|b [|d l]]]; simpl in *;
      repeat (apply andb_true_iff in H; destruct H as [? H]);
      repeat (apply andb_true_iff; split); try assumption; try reflexivity.
    now destruct l. }
  rewrite Hl.
  repeat match goal with Hx : no_slash _ = true |- _ => rewrite Hx; clear Hx end.
  now destruct (StripDebug c), (TrimPath c), (GOOS c =? "windows").
Qed.

(** C1. Two configurations that are equal in every field except
    [BuildTime] have the same output path: [OutputPath] returns the same
    string for both, or panics in the same way for both. *)
Theorem OutputPath_ignores_BuildTime (c1 c2 : Config) :
  same_but_BuildTime c1 c2 -> OutputPath c1 = OutputPath c2.
Proof.
  intros (HN & HV & HO & HL & HS & HT).
  unfold OutputPath, snapshot.
  now rewrite HN, HV, HO, HL, HS, HT.
Qed.

(** Two runs of the matrix at different times: the same output path. *)
Lemma OutputPath_ignores_BuildTime_witness :
  OutputPath (mkConfig "hello" "go1.13.8" "windows" "internal" true true (time.mkTime 63718531199 120000000 3600)) =
  OutputPath (mkConfig "hello" "go1.13.8" "windows" "internal" true true (time.mkTime 63718617599 0 0)).
Proof.
  apply OutputPath_ignores_BuildTime. unfold same_but_BuildTime. simpl. tauto.
Defined.

(** C5. [OutputPath] returns a path exactly when [LinkMode] has three
    bytes or more, and the path is then the file name of the scheme, joined
    to the output directory by [filepath.Join]: name, version, platform and
    the first three bytes of the link mode followed by [lnk], separated by
    dashes, [-strip] exactly when [StripDebug] is set, [-trimpath] exactly
    when [TrimPath] is set, a dash and the eight hexadecimal digits of the
    32-bit hash of the canonical serialization with [BuildTime] zeroed, and
    [.exe] exactly when the platform is [windows].  When no field has a
    slash, joining puts [dist/] in front of the file name. *)
Theorem OutputPath_scheme (c : Config) (p : string) :
  (OutputPath c = Ok p <->
   3 <= length (LinkMode c) /\ p = filepath.Join [out; spec_filename c]) /\
  (0 <= hash32 c < 2 ^ 32)%Z /\
  (no_slash (Name c ++ GoVersion c ++ GOOS c ++ LinkMode c) = true ->
   filepath.Join [out; spec_filename c] = "dist/" ++ spec_filename c).
Proof.
  split; [|split].
  - rewrite OutputPath_eq. destruct (Nat.leb_spec 3 (length (LinkMode c))) as [Hle|Hlt].
    + split; [intros [= <-]; now split | intros [_ ->]; reflexivity].
    + split; [discriminate | intros [Hle _]; lia].
  - apply hash32_range.
  - intros Hs. apply Join_out; [now apply no_slash_spec_filename | apply length_spec_filename].
Qed.

(** The scheme at a configuration of the matrix. *)
Lemma OutputPath_scheme_witness :
  OutputPath (mkConfig "hello" "go1.13.8" "windows" "internal" true true time.zero) =
  Ok "dist/hello-go1.13.8-windows-intlnk-strip-trimpath-4b0208d0.exe".
Proof.
  apply (proj1 (OutputPath_scheme _ _)). split; [simpl; lia | reflexivity].
Defined.

(** C10. The slice [c.LinkMode[:3]] is in bounds for the two link modes of
    the matrix, and [OutputPath] then returns; [OutputPath] returns exactly
    when [LinkMode] has three bytes or more, and panics with a slice-bounds
    error otherwise, as it does for the link mode [ex]. *)
Theorem OutputPath_slice_bounds :
  (forall c, LinkMode c = "internal" \/ LinkMode c = "external" -> returns (OutputPath c)) /\
  (forall c, returns (OutputPath c) <-> 3 <= length (LinkMode c)) /\
  (forall c, length (LinkMode c) < 3 ->
             OutputPath c = Panic (SliceBoundsOutOfRange 3 (length (LinkMode c)))) /\
  OutputPath (mkConfig "hello" "go1.14" "linux" "ex" false false time.zero) =
    Panic (SliceBoundsOutOfRange 3 2).
Proof.
  assert (Hret : forall c, returns (OutputPath c) <-> 3 <= length (LinkMode c)).
  { intros c. unfold returns. rewrite OutputPath_eq.
    destruct (Nat.leb_spec 3 (length (LinkMode c))) as [Hle|Hlt].
    - split; [intros _; assumption | intros _; eexists; reflexivity].
    - split; [intros [a Ha]; discriminate | lia]. }
  repeat split.
  - intros c [H|H]; apply Hret; rewrite H; simpl; lia.
  - apply Hret.
  - apply Hret.
  - intros c Hlt. rewrite OutputPath_eq.
    destruct (Nat.leb_spec 3 (length (LinkMode c))); [lia | reflexivity].
Qed.

(** The link modes of the matrix, and one that is too short. *)
Lemma OutputPath_slice_bounds_witness :
  returns (OutputPath cfg_internal) /\
  OutputPath (mkConfig "hello" "go1.14" "linux" "go" true false time.zero) =
    Panic (SliceBoundsOutOfRange 3 2).
Proof.
  split.
  - apply (proj1 OutputPath_slice_bounds). left. reflexivity.
  - apply (proj1 (proj2 (proj2 OutputPath_slice_bounds))
             (mkConfig "hello" "go1.14" "linux" "go" true false time.zero)).
    simpl. lia.
Defined.

(** ** The canonical serialization determines the configuration *)

Lemma lor_shiftl_add (a b k : Z) :
  (0 <= k)%Z -> (0 <= a)%Z -> (0 <= b < 2 ^ k)%Z -> Z.lor (Z.shiftl a k) b = (a * 2 ^ k + b)%Z.
Proof.
  intros Hk Ha Hb.
  rewrite <- Z.shiftl_mul_pow2 by assumption.
  rewrite <- Z.lxor_lor, <- Z.add_nocarry_lxor; try reflexivity.
  all: apply Z.bits_inj'; intros n Hn; rewrite Z.land_spec, Z.bits_0;
    destruct (Z.lt_ge_cases n k) as [Hlt|Hge];
    [ rewrite Z.shiftl_spec_low by assumption; reflexivity
    | rewrite andb_comm;
      destruct (Z.eq_dec b 0) as [->|Hb0]; [now rewrite Z.bits_0|];
      assert (Z.log2 b < k)%Z by (apply Z.log2_lt_pow2; lia);
      rewrite (Z.bits_above_log2 b n) by lia; reflexivity ].
Qed.

Lemma byte_range (c : ascii) : (0 <= byte c < 256)%Z.
Proof. unfold byte. pose proof (N_ascii_bounded c). lia. Qed.

Lemma chr_byte (c : ascii) : chr (byte c) = c.
Proof. unfold chr, byte. rewrite N2Z.id. apply ascii_N_embedding. Qed.

Lemma land_mask (b m lo : Z) (k : Z) :
  m = Z.ones k -> (0 <= k)%Z -> (lo mod 2 ^ k = 0)%Z -> (lo <= b < lo + 2 ^ k)%Z ->
  Z.land b m = (b - lo)%Z.
Proof.
  intros -> Hk Hlo Hb. rewrite Z.land_ones by assumption.
  assert (H2 : (0 < 2 ^ k)%Z) by (apply Z.pow_pos_nonneg; lia).
  apply Z.mod_divide in Hlo; [|lia]. destruct Hlo as [q ->].
  replace b with ((b - q * 2 ^ k) + q * 2 ^ k)%Z at 1 by lia.
  rewrite Z.mod_add by lia. apply Z.mod_small. lia.
Qed.

Lemma substring_0_0 (s : string) : substring 0 0 s = "".
Proof. now destruct s. Qed.

Ltac pair_inj :=
  let H := fresh in intros H; apply pair_equal_spec in H; destruct H as [<- <-].

Lemma Decode_spec (c : ascii) (t : string) (r : Z) (size : nat) :
  utf8.DecodeRuneInString (String c t) = (r, size) ->
  (size = 1 /\ ((r = byte c /\ (byte c < 128)%Z) \/ (r = utf8.RuneError /\ (128 <= byte c)%Z))) \/
  (2 <= size /\ size <= length (String c t) /\ (128 <= r)%Z /\
   high (substring 0 size (String c t)) = true /\
   ((r = 8232 \/ r = 8233)%Z -> substring 0 size (String c t) = sep_bytes r)).
Proof.
  unfold utf8.DecodeRuneInString, utf8.RuneSelf, utf8.cont, utf8.in_range, utf8.low6.
  pose proof (byte_range c) as Hc.
  destruct (Z.ltb_spec (byte c) 128) as [H0|H0].
  { pair_inj. left. tauto. }
  destruct ((byte c <? 194)%Z || (244 <? byte c)%Z) eqn:E1.
  { pair_inj. left. tauto. }
  apply orb_false_iff in E1. destruct E1 as [E1 E2].
  apply Z.ltb_ge in E1, E2.
  destruct (Z.ltb_spec (byte c) 224) as [H2|H2].
  { destruct t as [|c1 t]; [pair_inj; left; tauto|].
    destruct ((128 <=? byte c1)%Z && (byte c1 <=? 191)%Z) eqn:B1;
      [|pair_inj; left; tauto].
    apply andb_true_iff in B1. destruct B1 as [B1 B1']. apply Z.leb_le in B1, B1'.
    pair_inj. right.
    rewrite (land_mask (byte c) 31 192 5), (land_mask (byte c1) 63 128 6) by (reflexivity || lia).
    rewrite lor_shiftl_add by lia. change (2 ^ 6)%Z with 64%Z.
    cbn [length substring]. rewrite substring_0_0. cbn [high].
    replace (128 <=? byte c)%Z with true by (symmetry; apply Z.leb_le; lia).
    replace (128 <=? byte c1)%Z with true by (symmetry; apply Z.leb_le; lia).
    repeat split; try reflexivity; lia. }
  destruct (Z.ltb_spec (byte c) 240) as [H3|H3].
  { destruct t as [|c1 [|c2 t]]; try (pair_inj; left; tauto).
    pose proof (byte_range c1) as Hc1. pose proof (byte_range c2) as Hc2.
    match goal with |- context [if ?b then _ else _] => destruct b eqn:B end;
      [|pair_inj; left; tauto].
    apply andb_true_iff in B. destruct B as [B B2].
    apply andb_true_iff in B. destruct B as [B1 B1'].
    apply andb_true_iff in B2. destruct B2 as [B2 B2'].
    apply Z.leb_le in B1, B1', B2, B2'.
    assert (Hb1 : (128 <= byte c1 <= 191)%Z).
    { destruct (byte c =? 224)%Z, (byte c =? 237)%Z; lia. }
    pair_inj. right.
    rewrite (land_mask (byte c) 15 224 4), (land_mask (byte c1) 63 128 6),
      (land_mask (byte c2) 63 128 6) by (reflexivity || lia).
    rewrite (lor_shiftl_add (byte c1 - 128) (byte c2 - 128) 6) by lia.
    change (2 ^ 6)%Z with 64%Z.
    rewrite lor_shiftl_add by lia. change (2 ^ 12)%Z with 4096%Z.
    cbn [length substring]. rewrite substring_0_0. cbn [high].
    replace (128 <=? byte c)%Z with true by (symmetry; apply Z.leb_le; lia).
    replace (128 <=? byte c1)%Z with true by (symmetry; apply Z.leb_le; lia).
    replace (128 <=? byte c2)%Z with true by (symmetry; apply Z.leb_le; lia).
    split; [lia|]. split; [lia|]. split.
    { destruct (Z.eqb_spec (byte c) 224); lia. }
    split; [reflexivity|].
    intros Hr. unfold sep_bytes.
    assert (E0 : byte c = 226%Z) by lia.
    assert (E1' : byte c1 = 128%Z) by lia.
    assert (E2' : byte c2 = ((byte c - 224) * 4096 + ((byte c1 - 128) * 64 + (byte c2 - 128)) - 8064)%Z) by lia.
    rewrite <- E2', <- E0, <- E1', !chr_byte. reflexivity. }
  destruct t as [|c1 [|c2 [|c3 t]]]; try (pair_inj; left; tauto).
  pose proof (byte_range c1) as Hc1. pose proof (byte_range c2) as Hc2.
  pose proof (byte_range c3) as Hc3.
  match goal with |- context [if ?b then _ else _] => destruct b eqn:B end;
    [|pair_inj; left; tauto].
  apply andb_true_iff in B. destruct B as [B B3].
  apply andb_true_iff in B. destruct B as [B B2].
  apply andb_true_iff in B. destruct B as [B1 B1'].
  apply andb_true_iff in B2. destruct B2 as [B2 B2'].
  apply andb_true_iff in B3. destruct B3 as [B3 B3'].
  apply Z.leb_le in B1, B1', B2, B2', B3, B3'.
  assert (Hb1 : (128 <= byte c1 <= 191)%Z).
  { destruct (byte c =? 240)%Z, (byte c =? 244)%Z; lia. }
  pair_inj. right.
  rewrite (land_mask (byte c) 7 240 3), (land_mask (byte c1) 63 128 6),
    (land_mask (byte c2) 63 128 6), (land_mask (byte c3) 63 128 6) by (reflexivity || lia).
  rewrite (lor_shiftl_add (byte c2 - 128) (byte c3 - 128) 6) by lia.
  change (2 ^ 6)%Z with 64%Z.
  rewrite (lor_shiftl_add (byte c1 - 128) _ 12) by lia. change (2 ^ 12)%Z with 4096%Z.
  rewrite lor_shiftl_add by lia. change (2 ^ 18)%Z with 262144%Z.
  cbn [length substring]. rewrite substring_0_0. cbn [high].
  replace (128 <=? byte c)%Z with true by (symmetry; apply Z.leb_le; lia).
  replace (128 <=? byte c1)%Z with true by (symmetry; apply Z.leb_le; lia).
  replace (128 <=? byte c2)%Z with true by (symmetry; apply Z.leb_le; lia).
  replace (128 <=? byte c3)%Z with true by (symmetry; apply Z.leb_le; lia).
  assert (Hlow : (65536 <= (byte c - 240) * 262144 +
                    ((byte c1 - 128) * 4096 + ((byte c2 - 128) * 64 + (byte c3 - 128))))%Z).
  { destruct (Z.eqb_spec (byte c) 240); lia. }
  repeat split; try reflexivity; lia.
Qed.

Lemma drop_0 (s : string) : drop 0 s = s.
Proof. unfold drop. rewrite Nat.sub_0_r. apply substring_0_length. Qed.

Lemma drop_S (n : nat) (c : ascii) (t : string) : drop (S n) (String c t) = drop n t.
Proof. reflexivity. Qed.

Lemma length_drop (n : nat) (s : string) : n <= length s -> length (drop n s) = length s - n.
Proof.
  revert s; induction n as [|n IH]; intros s Hn.
  - rewrite drop_0. lia.
  - destruct s as [|c t]; cbn [length] in *; [lia|]. rewrite drop_S, IH by lia. lia.
Qed.

Lemma runes_from_drop (k : nat) (s : string) :
  k <= length s -> utf8.runes_from s k = utf8.runes (drop k s).
Proof.
  revert s; induction k as [|k IH]; intros s Hk.
  - now rewrite drop_0.
  - destruct s as [|c t]; cbn [length] in Hk; [lia|].
    cbn [utf8.runes_from]. rewrite drop_S. apply IH. lia.
Qed.

Lemma Decode_size (c : ascii) (t : string) (r : Z) (size : nat) :
  utf8.DecodeRuneInString (String c t) = (r, size) -> 1 <= size <= length (String c t).
Proof.
  intros H. apply Decode_spec in H. cbn [length] in *.
  destruct H as [[-> _]|(H2 & Hl & _)]; lia.
Qed.

Lemma runes_cons (c : ascii) (t : string) (r : Z) (size : nat) :
  utf8.DecodeRuneInString (String c t) = (r, size) ->
  utf8.runes (String c t) =
  (r, substring 0 size (String c t)) :: utf8.runes (drop size (String c t)).
Proof.
  intros H. pose proof (Decode_size _ _ _ _ H) as Hs.
  unfold utf8.runes at 1. cbn [utf8.runes_from]. rewrite H.
  destruct size as [|k]; [lia|]. cbn [length] in Hs.
  rewrite drop_S, Nat.sub_succ, Nat.sub_0_r, runes_from_drop by lia. reflexivity.
Qed.

Lemma concat_cons (x : string) (l : list string) :
  String.concat "" (x :: l) = x ++ String.concat "" l.
Proof. destruct l; cbn [String.concat append]; [now rewrite append_nil_r | reflexivity]. Qed.

Lemma prepend_append (a b : string) (r : option (string * string)) :
  prepend a (prepend b r) = prepend (a ++ b) r.
Proof. destruct r as [[x y]|]; cbn; [now rewrite append_assoc | reflexivity]. Qed.

Lemma unquote_high (raw tail : string) :
  high raw = true -> unquote (raw ++ tail) = prepend raw (unquote tail).
Proof.
  induction raw as [|c raw IH]; intros H; cbn [high append] in *.
  - now destruct (unquote tail) as [[a b]|].
  - apply andb_true_iff in H. destruct H as [Hc H]. apply Z.leb_le in Hc.
    cbn [unquote].
    assert (E1 : Ascii.eqb c dquote = false).
    { destruct (Ascii.eqb_spec c dquote) as [->|]; [change (byte dquote) with 34%Z in Hc; lia | reflexivity]. }
    assert (E2 : Ascii.eqb c bslash = false).
    { destruct (Ascii.eqb_spec c bslash) as [->|]; [change (byte bslash) with 92%Z in Hc; lia | reflexivity]. }
    rewrite E1, E2, IH by assumption. apply prepend_append.
Qed.

Lemma unquote_ascii (c : ascii) (tail : string) :
  (byte c < 128)%Z ->
  unquote ((if json.htmlSafe (byte c) then str1 c else json.escape (byte c)) ++ tail) =
  prepend (str1 c) (unquote tail).
Proof.
  intros H. destruct c as [b0 b1 b2 b3 b4 b5 b6 b7].
  destruct b7, b0, b1, b2, b3, b4, b5, b6;
    try (vm_compute in H; discriminate H); reflexivity.
Qed.

Lemma unquote_rune (c : ascii) (t : string) (r : Z) (size : nat) (tail : string) :
  utf8.DecodeRuneInString (String c t) = (r, size) ->
  valid_rune (r, substring 0 size (String c t)) = true ->
  unquote (json.encodeRune (r, substring 0 size (String c t)) ++ tail) =
  prepend (substring 0 size (String c t)) (unquote tail).
Proof.
  intros Hd Hv. pose proof (Decode_size _ _ _ _ Hd) as Hsize.
  apply Decode_spec in Hd.
  destruct Hd as [[-> [[-> Hc]|[-> Hc]]]|(H2 & Hl & Hr & Hh & Hsep)].
  - cbn [substring]. rewrite substring_0_0. unfold json.encodeRune, utf8.RuneSelf.
    replace (byte c <? 128)%Z with true by (symmetry; apply Z.ltb_lt; assumption).
    now apply unquote_ascii.
  - unfold valid_rune in Hv. cbn [fst snd substring] in Hv.
    rewrite substring_0_0 in Hv. discriminate Hv.
  - unfold json.encodeRune, utf8.RuneSelf.
    replace (r <? 128)%Z with false by (symmetry; apply Z.ltb_ge; assumption).
    rewrite length_substring_0 by assumption.
    replace (size =? 1)%nat with false by (symmetry; apply Nat.eqb_neq; lia).
    rewrite andb_false_r.
    destruct (Z.eqb_spec r 8232) as [->|N1].
    { rewrite Hsep by now left. reflexivity. }
    destruct (Z.eqb_spec r 8233) as [->|N2].
    { rewrite Hsep by now right. reflexivity. }
    cbn [orb]. now apply unquote_high.
Qed.

(** Reading back what the encoder wrote for a valid string. *)
Lemma unquote_encodeRunes (n : nat) (s rest : string) :
  length s <= n -> valid_utf8 s = true ->
  unquote (encodeRunes s ++ str1 dquote ++ rest) = Some (s, rest).
Proof.
  revert s; induction n as [|n IH]; intros s Hn Hv.
  - destruct s; [reflexivity | cbn [length] in Hn; lia].
  - destruct s as [|c t]; [reflexivity|].
    destruct (utf8.DecodeRuneInString (String c t)) as [r size] eqn:Hd.
    pose proof (Decode_size _ _ _ _ Hd) as Hsize.
    unfold encodeRunes, valid_utf8 in *. rewrite (runes_cons _ _ _ _ Hd) in *.
    cbn [map forallb] in *. apply andb_true_iff in Hv. destruct Hv as [Hv1 Hv2].
    rewrite concat_cons, append_assoc, (unquote_rune _ _ _ _ _ Hd Hv1).
    rewrite IH; [| rewrite length_drop by lia; cbn [length] in *; lia | assumption].
    cbn [prepend]. unfold drop. now rewrite substring_split by lia.
Qed.

Lemma encodeRunes_inj (s1 s2 rest1 rest2 : string) :
  valid_utf8 s1 = true -> valid_utf8 s2 = true ->
  encodeRunes s1 ++ String dquote rest1 = encodeRunes s2 ++ String dquote rest2 ->
  s1 = s2 /\ rest1 = rest2.
Proof.
  intros H1 H2 E. apply (f_equal unquote) in E.
  change (String dquote rest1) with (str1 dquote ++ rest1) in E.
  change (String dquote rest2) with (str1 dquote ++ rest2) in E.
  rewrite (unquote_encodeRunes (length s1)), (unquote_encodeRunes (length s2)) in E
    by (assumption || apply Nat.le_refl).
  injection E as -> ->. split; reflexivity.
Qed.

Ltac strip_prefix H :=
  cbn [append str1 json.encodeBool] in H;
  repeat match type of H with String ?a _ = String ?a _ => injection H as H end.

Lemma encodeBool_inj (b1 b2 : bool) (rest1 rest2 : string) :
  json.encodeBool b1 ++ "," ++ rest1 = json.encodeBool b2 ++ "," ++ rest2 ->
  b1 = b2 /\ rest1 = rest2.
Proof.
  destruct b1, b2; cbn; intros E; try discriminate E; injection E as ->; split; reflexivity.
Qed.

Lemma canonical_inj (c1 c2 : Config) :
  valid_config c1 -> valid_config c2 -> canonical c1 = canonical c2 ->
  same_but_BuildTime c1 c2.
Proof.
  intros (N1 & V1 & O1 & L1) (N2 & V2 & O2 & L2) E.
  unfold canonical, quoted, json.encodeString in E.
  repeat match type of E with
         | context [String.concat "" (map json.encodeRune (utf8.runes ?s))] =>
             fold (encodeRunes s) in E
         end.
  rewrite !append_assoc in E. strip_prefix E.
  apply encodeRunes_inj in E; [|assumption..]. destruct E as [HN E]. strip_prefix E.
  apply encodeRunes_inj in E; [|assumption..]. destruct E as [HV E]. strip_prefix E.
  apply encodeRunes_inj in E; [|assumption..]. destruct E as [HO E]. strip_prefix E.
  apply encodeRunes_inj in E; [|assumption..]. destruct E as [HL E]. strip_prefix E.
  apply encodeBool_inj in E. destruct E as [HS E]. strip_prefix E.
  assert (HT : TrimPath c1 = TrimPath c2).
  { destruct (TrimPath c1), (TrimPath c2); try reflexivity; discriminate E. }
  unfold same_but_BuildTime. tauto.
Qed.

(** ** The fingerprint *)

Lemma undigit_digit (v : Z) : (0 <= v < 16)%Z -> undigit (hex.digit v) = v.
Proof.
  intros Hv.
  assert (H : (v = 0 \/ v = 1 \/ v = 2 \/ v = 3 \/ v = 4 \/ v = 5 \/ v = 6 \/ v = 7 \/
               v = 8 \/ v = 9 \/ v = 10 \/ v = 11 \/ v = 12 \/ v = 13 \/ v = 14 \/ v = 15)%Z)
    by lia.
  repeat (destruct H as [-> | H]; [reflexivity|]). now subst v.
Qed.

Lemma nibble_eq (a b k : Z) :
  hex.digit (a / 16 ^ k mod 16) = hex.digit (b / 16 ^ k mod 16) ->
  (a / 16 ^ k mod 16 = b / 16 ^ k mod 16)%Z.
Proof.
  intros H. apply (f_equal undigit) in H.
  now rewrite !undigit_digit in H by apply nibble_range.
Qed.

(** The base-16 digits of a number determine it. *)
Lemma nibbles_inj (n : nat) (a b : Z) :
  (0 <= a < 16 ^ Z.of_nat n)%Z -> (0 <= b < 16 ^ Z.of_nat n)%Z ->
  (forall k, (0 <= k < Z.of_nat n)%Z -> (a / 16 ^ k mod 16 = b / 16 ^ k mod 16)%Z) ->
  a = b.
Proof.
  revert a b; induction n as [|n IH]; intros a b Ha Hb H.
  - change (16 ^ Z.of_nat 0)%Z with 1%Z in *. lia.
  - rewrite Nat2Z.inj_succ, Z.pow_succ_r in Ha, Hb by lia.
    assert (E : (a / 16 = b / 16)%Z).
    { apply IH.
      - split; [apply Z.div_pos; lia | apply Z.div_lt_upper_bound; lia].
      - split; [apply Z.div_pos; lia | apply Z.div_lt_upper_bound; lia].
      - intros k Hk. specialize (H (Z.succ k)).
        rewrite Z.pow_succ_r in H by lia.
        rewrite <- !Z.div_div in H by lia. apply H. lia. }
    specialize (H 0%Z). change (16 ^ 0)%Z with 1%Z in H. rewrite !Z.div_1_r in H.
    rewrite (Z.div_mod a 16), (Z.div_mod b 16) by lia. rewrite E, H by lia. reflexivity.
Qed.

(** The eight digits determine a 32-bit number. *)
Lemma hex8_inj (a b : Z) :
  (0 <= a < 2 ^ 32)%Z -> (0 <= b < 2 ^ 32)%Z -> hex8 a = hex8 b -> a = b.
Proof.
  intros Ha Hb H. unfold hex8, str1 in H. cbn [map String.concat append] in H.
  injection H as H7 H6 H5 H4 H3 H2 H1 H0.
  apply (nibbles_inj 8); try assumption.
  intros k Hk. apply nibble_eq.
  assert (Hc : (k = 0 \/ k = 1 \/ k = 2 \/ k = 3 \/ k = 4 \/ k = 5 \/ k = 6 \/ k = 7)%Z) by lia.
  repeat (destruct Hc as [-> | Hc]; [assumption|]). now subst k.
Qed.

(** Configurations whose strings differ in invalid bytes only have the
    same canonical serialization: the encoder writes both as U+FFFD. *)
Lemma canonical_invalid_utf8 :
  canonical (mkConfig "hello" "go1.14" "linux" ("int" ++ str1 (chr 255)) false false time.zero) =
  canonical (mkConfig "hello" "go1.14" "linux" ("int" ++ str1 (chr 254)) false false time.zero).
Proof. reflexivity. Qed.

(** C4, as the code has it. Configurations that are equal in every field
    except [BuildTime] have the same fingerprint; two fingerprints are equal
    exactly when the 32-bit hashes of the two canonical serializations are
    equal, whatever the configurations; and the canonical serializations of
    configurations whose strings are valid UTF-8 are equal exactly when the
    configurations are equal in every field except [BuildTime]. *)
Theorem fingerprint_deterministic (c1 c2 : Config) :
  (same_but_BuildTime c1 c2 -> fingerprint c1 = fingerprint c2) /\
  (fingerprint c1 = fingerprint c2 <-> hash32 c1 = hash32 c2) /\
  (valid_config c1 -> valid_config c2 ->
   (canonical c1 = canonical c2 <-> same_but_BuildTime c1 c2)).
Proof.
  split; [|split].
  - intros (HN & HV & HO & HL & HS & HT). unfold fingerprint, snapshot.
    now rewrite HN, HV, HO, HL, HS, HT.
  - rewrite !fingerprint_eq. split.
    + intros H.
      assert (E : hex8 (hash32 c1) = hex8 (hash32 c2)) by congruence.
      apply hex8_inj in E; auto using hash32_range.
    + now intros ->.
  - intros H1 H2. split; [now apply canonical_inj|].
    intros (HN & HV & HO & HL & HS & HT). unfold canonical.
    now rewrite HN, HV, HO, HL, HS, HT.
Qed.

(** The fingerprint of a configuration at two build times; and the two
    configurations of the collision, whose serializations differ. *)
Lemma fingerprint_deterministic_witness :
  fingerprint cfg_internal =
    fingerprint (mkConfig "hello" "go1.14" "linux" "internal" false false
                   (time.mkTime 63718531199 0 0)) /\
  canonical cfg_internal <> canonical cfg_collides.
Proof.
  split.
  - apply (proj1 (fingerprint_deterministic _ _)). unfold same_but_BuildTime. simpl. tauto.
  - intros E.
    apply (proj2 (proj2 (fingerprint_deterministic cfg_internal cfg_collides))) in E.
    + destruct E as (_ & _ & _ & E & _). discriminate E.
    + repeat split; reflexivity.
    + repeat split; reflexivity.
Defined.

(** C4, as stated, fails: [cfg_internal] and [cfg_collides] differ in
    [LinkMode], and have the same fingerprint and the same output path. *)
Lemma fingerprint_collision :
  LinkMode cfg_internal <> LinkMode cfg_collides /\
  fingerprint cfg_internal = Ok "f439abe6" /\
  fingerprint cfg_collides = Ok "f439abe6" /\
  OutputPath cfg_internal = Ok "dist/hello-go1.14-linux-intlnk-f439abe6" /\
  OutputPath cfg_collides = Ok "dist/hello-go1.14-linux-intlnk-f439abe6" /\
  ~ (forall c1 c2, fingerprint c1 = fingerprint c2 <-> same_but_BuildTime c1 c2).
Proof.
  assert (H1 : fingerprint cfg_internal = Ok "f439abe6") by (vm_compute; reflexivity).
  assert (H2 : fingerprint cfg_collides = Ok "f439abe6") by (vm_compute; reflexivity).
  split; [discriminate|].
  split; [exact H1|].
  split; [exact H2|].
  split; [vm_compute; reflexivity|].
  split; [vm_compute; reflexivity|].
  intros H.
  assert (E : same_but_BuildTime cfg_internal cfg_collides).
  { apply H. rewrite H1. symmetry. exact H2. }
  destruct E as (_ & _ & _ & E & _). discriminate E.
Qed.

(** ** The loops of [main] *)

Lemma for_range_ext {A : Type} (xs : list A) (f g : A -> M unit) :
  (forall x started, f x started = g x started) ->
  forall started, for_range xs f started = for_range xs g started.
Proof.
  intros Hfg. induction xs as [|x xs IH]; intros started; [reflexivity|].
  cbn [for_range]. unfold bindM. rewrite Hfg.
  destruct (g x started) as [[[]|p] st]; [apply IH | reflexivity].
Qed.

Lemma for_range_app {A : Type} (xs ys : list A) (f : A -> M unit) (started : list Config) :
  for_range (xs ++ ys) f started =
  match for_range xs f started with
  | (Ok _, st) => for_range ys f st
  | (Panic p, st) => (Panic p, st)
  end.
Proof.
  revert started; induction xs as [|x xs IH]; intros started; [reflexivity|].
  cbn [for_range app]. unfold bindM.
  destruct (f x started) as [[[]|p] st]; [apply IH | reflexivity].
Qed.

Lemma for_range_map {A B : Type} (g : A -> B) (xs : list A) (f : B -> M unit)
    (started : list Config) :
  for_range (map g xs) f started = for_range xs (fun x => f (g x)) started.
Proof.
  revert started; induction xs as [|x xs IH]; intros started; [reflexivity|].
  cbn [for_range map]. unfold bindM.
  destruct (f (g x) started) as [[[]|p] st]; [apply IH | reflexivity].
Qed.

Lemma for_range_flat_map {A B : Type} (g : A -> list B) (xs : list A) (f : B -> M unit)
    (started : list Config) :
  for_range (flat_map g xs) f started = for_range xs (fun x => for_range (g x) f) started.
Proof.
  revert started; induction xs as [|x xs IH]; intros started; [reflexivity|].
  cbn [for_range flat_map]. rewrite for_range_app. unfold bindM.
  destruct (for_range (g x) f started) as [[[]|p] st]; [apply IH | reflexivity].
Qed.

(** The five loops are one loop over the product. *)
Lemma enumerate_product (h : Host) (name : string) (buildTime : time.Time) (ax : Axes)
    (started : list Config) :
  enumerate h name buildTime ax started =
  for_range (product ax) (body h name buildTime) started.
Proof.
  unfold enumerate, product.
  rewrite for_range_flat_map. apply for_range_ext. intros exe st1.
  rewrite for_range_flat_map. apply for_range_ext. intros GOOS st2.
  rewrite for_range_flat_map. apply for_range_ext. intros trimpath st3.
  rewrite for_range_flat_map. apply for_range_ext. intros linkmode st4.
  rewrite for_range_map. reflexivity.
Qed.

(** What one run of the body does, case by case. *)
Lemma loop_body_eq (h : Host) (name : string) (buildTime : time.Time)
    (exe GOOS : string) (trimpath : bool) (linkmode : string) (strip : bool)
    (started : list Config) :
  loop_body h name buildTime exe GOOS trimpath linkmode strip started =
  match goVersion h exe with
  | Panic p => (Panic p, started)
  | Ok version =>
      if negb (version =? exe) then (Panic (InconsistentGoVersion exe version), started)
      else
        match nth_error (Split version ".") 1 with
        | None => (Panic (IndexOutOfRange 1 (List.length (Split version "."))), started)
        | Some field =>
            match strconv.Atoi field with
            | None => (Panic (NumError field), started)
            | Some v =>
                if trimpath && (v <? 13)%Z then (Ok tt, started)
                else if (linkmode =? "external") && negb (runtime_GOOS h =? GOOS)
                     then (Ok tt, started)
                     else (Ok tt,
                           (started ++
                            [mkConfig name version GOOS linkmode strip trimpath buildTime])%list)
            end
        end
  end.
Proof.
  unfold loop_body, bindM, lift, throw, lift, ret, go, index_at.
  destruct (goVersion h exe) as [version|p]; [|reflexivity].
  destruct (negb (version =? exe)); [reflexivity|].
  destruct (nth_error (Split version ".") 1) as [field|]; [|reflexivity].
  destruct (strconv.Atoi field) as [v|]; [|reflexivity].
  destruct (trimpath && (v <? 13)%Z); [reflexivity|].
  destruct ((linkmode =? "external") && negb (runtime_GOOS h =? GOOS)); reflexivity.
Qed.

Lemma body_appends (h : Host) (name : string) (buildTime : time.Time) (cb : Combo) :
  appends (body h name buildTime cb).
Proof.
  destruct cb as [[[[exe GOOS] trimpath] linkmode] strip]. intros started.
  unfold body. rewrite !loop_body_eq.
  destruct (goVersion h exe) as [version|p]; [|now rewrite app_nil_r].
  destruct (negb (version =? exe)); [now rewrite app_nil_r|].
  destruct (nth_error (Split version ".") 1) as [field|]; [|now rewrite app_nil_r].
  destruct (strconv.Atoi field) as [v|]; [|now rewrite app_nil_r].
  destruct (trimpath && (v <? 13)%Z); [now rewrite app_nil_r|].
  destruct ((linkmode =? "external") && negb (runtime_GOOS h =? GOOS));
    [now rewrite app_nil_r | reflexivity].
Qed.

(** A loop whose body only appends: it runs the bodies in order up to the
    first panic. *)
Lemma for_range_cons_appends {A : Type} (f : A -> M unit) (x : A) (xs : list A) :
  (forall y, appends (f y)) ->
  for_range (x :: xs) f [] =
  match fst (f x []) with
  | Ok _ => (fst (for_range xs f []), (snd (f x []) ++ snd (for_range xs f []))%list)
  | Panic p => (Panic p, snd (f x []))
  end
  /\ appends (for_range xs f).
Proof.
  intros Hf.
  assert (Happ : forall l, appends (for_range l f)).
  { induction l as [|y l IH]; intros started.
    - cbn. now rewrite app_nil_r.
    - cbn [for_range]. unfold bindM. rewrite (Hf y started).
      destruct (f y []) as [[[]|p] st]; cbn [fst snd].
      + rewrite (IH (started ++ st)%list), (IH st). cbn [fst snd]. now rewrite app_assoc.
      + reflexivity. }
  split; [|apply Happ].
  cbn [for_range]. unfold bindM.
  destruct (f x []) as [[[]|p] st]; cbn [fst snd]; [|reflexivity].
  now rewrite (Happ xs st).
Qed.

Section Loops.

Context {A : Type} (f : A -> M unit) (Hf : forall y, appends (f y)).

Lemma for_range_started (xs : list A) (c : Config) :
  In c (snd (for_range xs f [])) -> exists x, In x xs /\ In c (snd (f x [])).
Proof.
  induction xs as [|x xs IH]; [intros []|].
  destruct (for_range_cons_appends f x xs Hf) as [-> _].
  destruct (fst (f x [])) as [[]|p]; cbn [snd].
  - rewrite in_app_iff. intros [H|H].
    + exists x. split; [now left | assumption].
    + destruct (IH H) as (y & Hy & Hc). exists y. split; [now right | assumption].
  - intros H. exists x. split; [now left | assumption].
Qed.

Lemma for_range_ok (xs : list A) :
  fst (for_range xs f []) = Ok tt <-> forall x, In x xs -> fst (f x []) = Ok tt.
Proof.
  induction xs as [|x xs IH]; [split; [intros _ x [] | reflexivity]|].
  destruct (for_range_cons_appends f x xs Hf) as [-> _].
  destruct (fst (f x [])) as [[]|p] eqn:E; cbn [fst].
  - rewrite IH. split.
    + intros H y [<-|Hy]; [assumption | now apply H].
    + intros H y Hy. apply H. now right.
  - split; [discriminate|]. intros H. specialize (H x (or_introl eq_refl)). congruence.
Qed.

Lemma for_range_ok_started (xs : list A) :
  fst (for_range xs f []) = Ok tt ->
  snd (for_range xs f []) = flat_map (fun x => snd (f x [])) xs.
Proof.
  induction xs as [|x xs IH]; [reflexivity|].
  destruct (for_range_cons_appends f x xs Hf) as [-> _].
  destruct (fst (f x [])) as [[]|p]; cbn [fst snd flat_map]; [|discriminate].
  intros H. now rewrite IH.
Qed.


Lemma for_range_panics (xs : list A) (x : A) (p : panic) :
  In x xs -> fst (f x []) = Panic p -> exists q, fst (for_range xs f []) = Panic q.
Proof.
  intros Hin Hx. destruct (fst (for_range xs f [])) as [[]|q] eqn:E; [|now exists q].
  pose proof (proj1 (for_range_ok xs) E x Hin). congruence.
Qed.

End Loops.

Lemma minor_eq (version : string) :
  minor version =
  match nth_error (Split version ".") 1 with
  | Some field => strconv.Atoi field
  | None => None
  end.
Proof. reflexivity. Qed.

(** A goroutine is started only for a version that the toolchain confirms
    and that both filters let through. *)
Lemma loop_body_started (h : Host) (name : string) (buildTime : time.Time)
    (exe GOOS : string) (trimpath : bool) (linkmode : string) (strip : bool) (c : Config) :
  In c (snd (loop_body h name buildTime exe GOOS trimpath linkmode strip [])) ->
  goVersion h exe = Ok exe /\
  (exists v, minor exe = Some v /\ (trimpath = true -> (13 <= v)%Z)) /\
  (linkmode = "external" -> GOOS = runtime_GOOS h) /\
  c = mkConfig name exe GOOS linkmode strip trimpath buildTime.
Proof.
  rewrite loop_body_eq.
  destruct (goVersion h exe) as [version|p]; [|intros []].
  destruct (String.eqb_spec version exe) as [->|Hne]; cbn [negb]; [|intros []].
  rewrite minor_eq.
  destruct (nth_error (Split exe ".") 1) as [field|]; [|intros []].
  destruct (strconv.Atoi field) as [v|]; [|intros []].
  destruct (trimpath && (v <? 13)%Z) eqn:Et; [intros []|].
  destruct ((linkmode =? "external") && negb (runtime_GOOS h =? GOOS)) eqn:El; [intros []|].
  cbn [snd app]. intros [<-|[]]. repeat split.
  - exists v. split; [reflexivity|]. intros ->. cbn [andb] in Et.
    apply Z.ltb_ge in Et. assumption.
  - intros ->. rewrite String.eqb_refl in El. cbn [andb] in El.
    apply negb_false_iff, String.eqb_eq in El. now symmetry.
Qed.

(** On a confirmed version with a minor number, the body does not panic
    and starts a goroutine exactly for a feasible combination. *)
Lemma loop_body_consistent (h : Host) (name : string) (buildTime : time.Time)
    (exe GOOS : string) (trimpath : bool) (linkmode : string) (strip : bool) (v : Z) :
  goVersion h exe = Ok exe -> minor exe = Some v ->
  loop_body h name buildTime exe GOOS trimpath linkmode strip [] =
  (Ok tt,
   if feasible (runtime_GOOS h) (exe, GOOS, trimpath, linkmode, strip)
   then [mkConfig name exe GOOS linkmode strip trimpath buildTime] else []).
Proof.
  intros Hv Hm. rewrite loop_body_eq, Hv, String.eqb_refl. cbn [negb].
  unfold feasible, trimpath_supported, can_link. rewrite Hm. rewrite minor_eq in Hm.
  destruct (nth_error (Split exe ".") 1) as [field|]; [|discriminate]. rewrite Hm.
  rewrite (Z.ltb_antisym 13 v).
  destruct trimpath, (13 <=? v)%Z, (linkmode =? "external"), (runtime_GOOS h =? GOOS);
    reflexivity.
Qed.

(** A body that does not panic has a confirmed version with a minor
    number. *)
Lemma loop_body_ok (h : Host) (name : string) (buildTime : time.Time)
    (exe GOOS : string) (trimpath : bool) (linkmode : string) (strip : bool) :
  fst (loop_body h name buildTime exe GOOS trimpath linkmode strip []) = Ok tt ->
  goVersion h exe = Ok exe /\ exists v, minor exe = Some v.
Proof.
  rewrite loop_body_eq.
  destruct (goVersion h exe) as [version|p]; [|discriminate].
  destruct (String.eqb_spec version exe) as [->|Hne]; cbn [negb]; [|discriminate].
  rewrite minor_eq.
  destruct (nth_error (Split exe ".") 1) as [field|]; [|discriminate].
  destruct (strconv.Atoi field) as [v|]; [|discriminate].
  intros _. split; [reflexivity | now exists v].
Qed.

(** A version that is not confirmed, or has no minor number, is a panic. *)
Lemma loop_body_fatal (h : Host) (name : string) (buildTime : time.Time)
    (exe GOOS : string) (trimpath : bool) (linkmode : string) (strip : bool) :
  goVersion h exe <> Ok exe \/ minor exe = None ->
  exists p, loop_body h name buildTime exe GOOS trimpath linkmode strip [] = (Panic p, []).
Proof.
  intros H. rewrite loop_body_eq.
  destruct (goVersion h exe) as [version|p]; [|now exists p].
  destruct (String.eqb_spec version exe) as [->|Hne]; cbn [negb]; [|eexists; reflexivity].
  destruct H as [H|H]; [now elim H|]. rewrite minor_eq in H.
  destruct (nth_error (Split exe ".") 1) as [field|]; [|eexists; reflexivity].
  rewrite H. eexists; reflexivity.
Qed.

Lemma in_product (ax : Axes) (exe GOOS : string) (trimpath : bool) (linkmode : string)
    (strip : bool) :
  In (exe, GOOS, trimpath, linkmode, strip) (product ax) <->
  In exe (versions ax) /\ In GOOS (platforms ax) /\ In trimpath (trimpaths ax) /\
  In linkmode (linkmodes ax) /\ In strip (strips ax).
Proof.
  unfold product. rewrite in_flat_map. split.
  - intros (e & He & H). apply in_flat_map in H. destruct H as (g & Hg & H).
    apply in_flat_map in H. destruct H as (t & Ht & H).
    apply in_flat_map in H. destruct H as (l & Hl & H).
    apply in_map_iff in H. destruct H as (s & [= <- <- <- <- <-] & Hs). tauto.
  - intros (He & Hg & Ht & Hl & Hs). exists exe. split; [assumption|].
    apply in_flat_map. exists GOOS. split; [assumption|].
    apply in_flat_map. exists trimpath. split; [assumption|].
    apply in_flat_map. exists linkmode. split; [assumption|].
    apply in_map_iff. now exists strip.
Qed.

Lemma enumerated_eq (h : Host) (name : string) (buildTime : time.Time) (ax : Axes) :
  enumerated h name buildTime ax = snd (for_range (product ax) (body h name buildTime) []).
Proof. unfold enumerated. now rewrite enumerate_product. Qed.

Lemma outcome_eq (h : Host) (name : string) (buildTime : time.Time) (ax : Axes) :
  outcome h name buildTime ax = fst (for_range (product ax) (body h name buildTime) []).
Proof. unfold outcome. now rewrite enumerate_product. Qed.

(** Every goroutine started comes from a combination of the product that
    the body kept. *)
Lemma enumerated_inv (h : Host) (name : string) (buildTime : time.Time) (ax : Axes)
    (c : Config) :
  In c (enumerated h name buildTime ax) ->
  In (GoVersion c) (versions ax) /\ In (GOOS c) (platforms ax) /\
  In (TrimPath c) (trimpaths ax) /\ In (LinkMode c) (linkmodes ax) /\
  In (StripDebug c) (strips ax) /\
  Name c = name /\ BuildTime c = buildTime /\
  goVersion h (GoVersion c) = Ok (GoVersion c) /\
  (exists v, minor (GoVersion c) = Some v /\ (TrimPath c = true -> (13 <= v)%Z)) /\
  (LinkMode c = "external" -> GOOS c = runtime_GOOS h).
Proof.
  rewrite enumerated_eq. intros H.
  apply for_range_started in H; [|apply body_appends].
  destruct H as ([[[[exe GOOS] trimpath] linkmode] strip] & Hin & Hc).
  apply in_product in Hin. apply loop_body_started in Hc.
  destruct Hc as (Hv & Hm & Hl & ->). cbn. tauto.
Qed.

(** When the loops end without a panic, every feasible combination of the
    product has its goroutine. *)
Lemma enumerated_feasible (h : Host) (name : string) (buildTime : time.Time) (ax : Axes)
    (cb : Combo) :
  outcome h name buildTime ax = Ok tt ->
  In cb (product ax) -> feasible (runtime_GOOS h) cb = true ->
  In (to_config name buildTime cb) (enumerated h name buildTime ax).
Proof.
  rewrite outcome_eq, enumerated_eq. intros Hok Hin Hfe.
  rewrite for_range_ok_started by (try apply body_appends; assumption).
  apply in_flat_map. exists cb. split; [assumption|].
  apply (proj1 (for_range_ok _ (body_appends h name buildTime) _)) with (x := cb) in Hok;
    [|assumption].
  destruct cb as [[[[exe GOOS] trimpath] linkmode] strip]. unfold body in *.
  destruct (loop_body_ok _ _ _ _ _ _ _ _ Hok) as (Hv & v & Hm).
  rewrite (loop_body_consistent _ _ _ _ _ _ _ _ v Hv Hm), Hfe. now left.
Qed.

Lemma flat_map_filter_map {A B : Type} (f : A -> list B) (p : A -> bool) (g : A -> B)
    (xs : list A) :
  (forall x, In x xs -> f x = if p x then [g x] else []) ->
  flat_map f xs = map g (filter p xs).
Proof.
  induction xs as [|x xs IH]; intros H; [reflexivity|].
  cbn [flat_map filter]. rewrite (H x (or_introl eq_refl)), IH.
  - now destruct (p x).
  - intros y Hy. apply H. now right.
Qed.

Lemma length_flat_map_const {A B : Type} (g : A -> list B) (n : nat) (xs : list A) :
  (forall x, List.length (g x) = n) -> List.length (flat_map g xs) = List.length xs * n.
Proof.
  intros Hg. induction xs as [|x xs IH]; [reflexivity|].
  cbn [flat_map List.length]. rewrite List.length_app, Hg, IH. lia.
Qed.

Lemma length_product (ax : Axes) :
  List.length (product ax) =
  List.length (versions ax) * (List.length (platforms ax) * (List.length (trimpaths ax) *
    (List.length (linkmodes ax) * List.length (strips ax)))).
Proof.
  unfold product.
  apply length_flat_map_const; intros exe.
  apply length_flat_map_const; intros GOOS.
  apply length_flat_map_const; intros trimpath.
  apply length_flat_map_const; intros linkmode.
  apply List.length_map.
Qed.

Lemma length_filter_negb {A : Type} (p : A -> bool) (xs : list A) :
  List.length (filter p xs) + List.length (filter (fun x => negb (p x)) xs) = List.length xs.
Proof.
  induction xs as [|x xs IH]; [reflexivity|]. cbn [filter].
  destruct (p x); cbn [negb List.length]; lia.
Qed.

(** On a consistent host the loops end without a panic and start exactly
    the matrix. *)
Lemma enumerate_consistent (h : Host) (name : string) (buildTime : time.Time) (ax : Axes) :
  consistent h ax ->
  outcome h name buildTime ax = Ok tt /\
  enumerated h name buildTime ax = matrix (runtime_GOOS h) name buildTime ax.
Proof.
  intros Hc.
  assert (Hbody : forall cb, In cb (product ax) ->
            body h name buildTime cb [] =
            (Ok tt, if feasible (runtime_GOOS h) cb then [to_config name buildTime cb] else [])).
  { intros [[[[exe GOOS] trimpath] linkmode] strip] Hin.
    apply in_product in Hin. destruct Hin as (He & _).
    destruct (Hc exe He) as (Hv & Hm).
    destruct (minor exe) as [v|] eqn:Em; [|now elim Hm].
    apply (loop_body_consistent _ _ _ _ _ _ _ _ v Hv Em). }
  assert (Hok : fst (for_range (product ax) (body h name buildTime) []) = Ok tt).
  { apply for_range_ok; [apply body_appends|]. intros cb Hin. now rewrite Hbody. }
  rewrite outcome_eq, enumerated_eq. split; [assumption|].
  rewrite for_range_ok_started by (try apply body_appends; assumption).
  unfold matrix. apply flat_map_filter_map. intros cb Hin. now rewrite Hbody.
Qed.

Lemma synthetic_consistent : consistent synthetic_host synthetic_axes.
Proof.
  intros exe [<-|[<-|[]]]; (split; [reflexivity | discriminate]).
Qed.

(** Whatever the host, a goroutine is started only for a combination of
    the matrix. *)
Lemma enumerated_in_matrix (h : Host) (name : string) (buildTime : time.Time) (ax : Axes)
    (c : Config) :
  In c (enumerated h name buildTime ax) -> In c (matrix (runtime_GOOS h) name buildTime ax).
Proof.
  intros Hin. apply enumerated_inv in Hin.
  destruct Hin as (He & Hg & Ht & Hl & Hs & Hn & Hb & _ & (v & Hm & Hv) & Hx).
  unfold matrix. apply in_map_iff.
  exists (GoVersion c, GOOS c, TrimPath c, LinkMode c, StripDebug c). split.
  - destruct c. cbn in *. now subst.
  - apply filter_In. split; [apply in_product; tauto|].
    unfold feasible, trimpath_supported, can_link. rewrite Hm.
    apply andb_true_iff. split.
    + destruct (TrimPath c); [|reflexivity]. cbn [negb orb].
      apply Z.leb_le. now apply Hv.
    + destruct (String.eqb_spec (LinkMode c) "external") as [E|_]; [|reflexivity].
      cbn [negb orb]. rewrite (Hx E). apply String.eqb_refl.
Qed.

(** C6. Whatever the host, the loops start nothing but combinations of the
    cartesian product that pass the trim-path and cross-link filters.  On a
    host whose toolchains are consistent with the axes, the loops end
    without a panic and start exactly the product minus the combinations
    that the two filters exclude, in the order of the loops; the count is
    the size of the product minus the number excluded.  On the synthetic
    axes the goroutines started are the six of the end-to-end scenario. *)
Theorem enumerate_complete :
  (forall (h : Host) (name : string) (buildTime : time.Time) (ax : Axes) (c : Config),
     In c (enumerated h name buildTime ax) ->
     In c (matrix (runtime_GOOS h) name buildTime ax)) /\
  (forall (h : Host) (name : string) (buildTime : time.Time) (ax : Axes),
     consistent h ax ->
     outcome h name buildTime ax = Ok tt /\
     enumerated h name buildTime ax = matrix (runtime_GOOS h) name buildTime ax /\
     List.length (enumerated h name buildTime ax) +
       List.length (filter (fun cb => negb (feasible (runtime_GOOS h) cb)) (product ax)) =
       List.length (product ax) /\
     List.length (product ax) =
       List.length (versions ax) * (List.length (platforms ax) *
         (List.length (trimpaths ax) * (List.length (linkmodes ax) * List.length (strips ax))))) /\
  map (fun c => (GoVersion c, GOOS c, TrimPath c))
    (enumerated synthetic_host "hello" (time_Now synthetic_host) synthetic_axes) =
  [ ("1.12", "linux", false); ("1.12", "windows", false);
    ("1.13", "linux", false); ("1.13", "linux", true);
    ("1.13", "windows", false); ("1.13", "windows", true) ].
Proof.
  split; [|split].
  - intros h name buildTime ax c Hin. now apply enumerated_in_matrix.
  - intros h name buildTime ax Hc.
    destruct (enumerate_consistent h name buildTime ax Hc) as [Hok Hen].
    repeat split; try assumption.
    + rewrite Hen. unfold matrix. rewrite List.length_map. apply length_filter_negb.
    + apply length_product.
  - destruct (enumerate_consistent synthetic_host "hello" (time_Now synthetic_host)
                synthetic_axes synthetic_consistent) as [_ ->].
    reflexivity.
Qed.

(** The synthetic scenario: no panic, six goroutines out of eight
    combinations. *)
Lemma enumerate_complete_witness :
  outcome synthetic_host "hello" time.zero synthetic_axes = Ok tt /\
  List.length (enumerated synthetic_host "hello" time.zero synthetic_axes) + 2 = 8.
Proof.
  destruct (proj1 (proj2 enumerate_complete) synthetic_host "hello" time.zero synthetic_axes
              synthetic_consistent) as (Hok & _ & Hlen & Hprod).
  split; [exact Hok|]. rewrite Hprod in Hlen. exact Hlen.
Defined.

(** C2. No goroutine is started with [TrimPath] set for a version whose
    minor number, the second dot-delimited component of the version, is
    below 13; when the loops end without a panic, every combination with
    trim-path set, a minor number of 13 or more and a link mode that passes
    the cross-link filter has its goroutine; a version whose minor number
    does not parse makes the loops panic. *)
Theorem trimpath_filter (h : Host) (name : string) (buildTime : time.Time) (ax : Axes) :
  (forall c, In c (enumerated h name buildTime ax) -> TrimPath c = true ->
     exists v, minor (GoVersion c) = Some v /\ (13 <= v)%Z) /\
  (forall exe GOOS linkmode strip v,
     outcome h name buildTime ax = Ok tt ->
     In exe (versions ax) -> In GOOS (platforms ax) -> In true (trimpaths ax) ->
     In linkmode (linkmodes ax) -> In strip (strips ax) ->
     minor exe = Some v -> (13 <= v)%Z ->
     can_link (runtime_GOOS h) GOOS linkmode = true ->
     In (mkConfig name exe GOOS linkmode strip true buildTime)
        (enumerated h name buildTime ax)) /\
  (forall exe version, In exe (versions ax) -> inner_nonempty ax ->
     goVersion h exe = Ok version -> minor version = None ->
     (exists p, outcome h name buildTime ax = Panic p) /\
     forall c, In c (enumerated h name buildTime ax) -> GoVersion c <> version).
Proof.
  split; [|split].
  - intros c Hin Ht. apply enumerated_inv in Hin.
    destruct Hin as (_ & _ & _ & _ & _ & _ & _ & _ & (v & Hm & Hv) & _).
    exists v. split; [assumption | now apply Hv].
  - intros exe GOOS linkmode strip v Hok He Hg Ht Hl Hs Hm Hv Hcl.
    apply (enumerated_feasible h name buildTime ax (exe, GOOS, true, linkmode, strip) Hok).
    + apply in_product. tauto.
    + unfold feasible, trimpath_supported. rewrite Hm, Hcl.
      apply Z.leb_le in Hv. now rewrite Hv.
  - intros exe version He (Hg & Ht & Hl & Hs) Hv Hm. split.
    + rewrite outcome_eq.
      destruct (platforms ax) as [|GOOS gs] eqn:Eg; [now elim Hg|].
      destruct (trimpaths ax) as [|trimpath ts] eqn:Et; [now elim Ht|].
      destruct (linkmodes ax) as [|linkmode ls] eqn:El; [now elim Hl|].
      destruct (strips ax) as [|strip ss] eqn:Es; [now elim Hs|].
      assert (Hbad : goVersion h exe <> Ok exe \/ minor exe = None).
      { destruct (string_dec version exe) as [<-|Hne]; [now right | left].
        rewrite Hv. intros [= E]. now elim Hne. }
      destruct (loop_body_fatal h name buildTime exe GOOS trimpath linkmode strip Hbad)
        as [p Hp].
      apply (for_range_panics _ (body_appends h name buildTime) _
               (exe, GOOS, trimpath, linkmode, strip) p).
      * apply in_product. rewrite Eg, Et, El, Es. cbn. tauto.
      * cbn [body]. now rewrite Hp.
    + intros c Hin E. apply enumerated_inv in Hin.
      destruct Hin as (_ & _ & _ & _ & _ & _ & _ & _ & (v & Hmv & _) & _).
      rewrite E in Hmv. congruence.
Qed.

(** The synthetic scenario: version 1.13 with trim-path is started, and no
    goroutine with trim-path has a minor number below 13. *)
Lemma trimpath_filter_witness :
  In (mkConfig "hello" "1.13" "windows" "internal" false true time.zero)
     (enumerated synthetic_host "hello" time.zero synthetic_axes) /\
  ~ In (mkConfig "hello" "1.12" "linux" "internal" false true time.zero)
       (enumerated synthetic_host "hello" time.zero synthetic_axes).
Proof.
  split.
  - apply (proj1 (proj2 (trimpath_filter synthetic_host "hello" time.zero synthetic_axes))
             "1.13" "windows" "internal" false 13%Z);
      try reflexivity; try (cbn; tauto); lia.
  - intros Hin.
    destruct (proj1 (trimpath_filter synthetic_host "hello" time.zero synthetic_axes)
                _ Hin eq_refl) as (v & Hm & Hv).
    vm_compute in Hm. injection Hm as <-. lia.
Defined.

(** C3. No goroutine is started with the external link mode for a platform
    other than the host's, whatever the host; when the loops end without a
    panic, every combination with the external link mode and the host
    platform that passes the trim-path filter has its goroutine. *)
Theorem crosslink_filter (h : Host) (name : string) (buildTime : time.Time) (ax : Axes) :
  (forall c, In c (enumerated h name buildTime ax) -> LinkMode c = "external" ->
     GOOS c = runtime_GOOS h) /\
  (forall exe trimpath strip,
     outcome h name buildTime ax = Ok tt ->
     In exe (versions ax) -> In (runtime_GOOS h) (platforms ax) ->
     In trimpath (trimpaths ax) -> In "external" (linkmodes ax) -> In strip (strips ax) ->
     trimpath_supported exe trimpath = true ->
     In (mkConfig name exe (runtime_GOOS h) "external" strip trimpath buildTime)
        (enumerated h name buildTime ax)).
Proof.
  split.
  - intros c Hin Hl. apply enumerated_inv in Hin.
    destruct Hin as (_ & _ & _ & _ & _ & _ & _ & _ & _ & Hx). now apply Hx.
  - intros exe trimpath strip Hok He Hg Ht Hl Hs Htp.
    apply (enumerated_feasible h name buildTime ax
             (exe, runtime_GOOS h, trimpath, "external", strip) Hok).
    + apply in_product. tauto.
    + unfold feasible, can_link. rewrite Htp, !String.eqb_refl. reflexivity.
Qed.

(** On the host platform of the synthetic host, with the external link
    mode added to the axes: external linking for linux is started, for
    windows it is not. *)
Lemma crosslink_filter_witness :
  In (mkConfig "hello" "1.13" "linux" "external" false true time.zero)
     (enumerated synthetic_host "hello" time.zero
        (mkAxes ["1.12"; "1.13"] ["linux"; "windows"] [false; true] ["internal"; "external"] [false])) /\
  ~ In (mkConfig "hello" "1.13" "windows" "external" false true time.zero)
       (enumerated synthetic_host "hello" time.zero
          (mkAxes ["1.12"; "1.13"] ["linux"; "windows"] [false; true] ["internal"; "external"] [false])).
Proof.
  split.
  - apply (proj2 (crosslink_filter synthetic_host "hello" time.zero
                    (mkAxes ["1.12"; "1.13"] ["linux"; "windows"] [false; true]
                       ["internal"; "external"] [false])) "1.13" true false);
      try reflexivity; cbn; tauto.
  - intros Hin.
    pose proof (proj1 (crosslink_filter synthetic_host "hello" time.zero _) _ Hin eq_refl) as E.
    discriminate E.
Defined.






(** ** The admission gate *)

Section Gate.

Variables (cap : nat) (work : Config -> result unit).
Variables (todo : list Config) (last : result unit).

Lemma gate_invariant_init : gate_invariant cap todo (sched.init todo last).
Proof.
  unfold gate_invariant, sched.init. cbn. repeat split; try lia.
  - discriminate.
  - now rewrite app_nil_r.
Qed.

Lemma Permutation_work_done (a w1 w2 d : list Config) (c : Config) :
  Permutation (a ++ (w1 ++ c :: w2) ++ d) (a ++ (w1 ++ w2) ++ c :: d).
Proof.
  apply Permutation_app_head. rewrite <- !app_assoc. apply Permutation_app_head.
  cbn [app]. apply Permutation_middle.
Qed.

Lemma gate_invariant_step (s s' : sched.state) :
  gate_invariant cap todo s -> sched.run_step cap work s s' -> gate_invariant cap todo s'.
Proof.
  intros (Hsem & Hslots & Hdrain & Hperm) [Hlive Hstep].
  destruct Hstep; unfold gate_invariant in *; cbn [sched.pc sched.sem sched.working
    sched.releasing sched.completed sched.main_slots pending List.length] in *.
  - (* sem <- struct{}{} in the loops *)
    repeat split; try lia; [discriminate | assumption].
  - (* go func() *)
    repeat split; try lia; [discriminate|].
    cbn [app]. eapply perm_trans; [|exact Hperm]. cbn [app].
    symmetry. apply Permutation_middle.
  - (* the work of a goroutine is done *)
    rewrite List.length_app in *. cbn [List.length] in *.
    repeat split; try lia; [assumption|].
    destruct p; try exact I; cbn [pending] in *;
      (eapply perm_trans; [|exact Hperm]); symmetry; apply Permutation_work_done.
  - (* the work of a goroutine panics *)
    repeat split; try lia. discriminate.
  - (* <-sem *)
    repeat split; try lia; assumption.
  - (* the loops panic *)
    repeat split; try lia. discriminate.
  - (* the loops end *)
    repeat split; try lia; [intros k [= <-]; lia | assumption].
  - (* sem <- struct{}{} in the final loop *)
    specialize (Hdrain (S k) eq_refl).
    repeat split; try lia; [intros m [= <-]; lia | assumption].
  - (* main returns *)
    specialize (Hdrain 0 eq_refl).
    repeat split; try lia; [discriminate | assumption].
Qed.

Lemma gate_invariant_reachable (s : sched.state) :
  sched.reachable cap work (sched.init todo last) s -> gate_invariant cap todo s.
Proof.
  induction 1 as [|s s' _ IH Hstep]; [apply gate_invariant_init|].
  now apply gate_invariant_step with s.
Qed.

(** Only goroutines whose work returned are counted as completed. *)
Lemma completed_work_ok (s : sched.state) :
  sched.reachable cap work (sched.init todo last) s ->
  forall c, In c (sched.completed s) -> work c = Ok tt.
Proof.
  induction 1 as [|s s' _ IH [_ Hstep]]; [intros c []|].
  destruct Hstep; cbn [sched.completed] in *; try assumption.
  intros c [<-|Hc]; [assumption | now apply IH].
Qed.

(** One goroutine after the other: a schedule that runs every goroutine to
    its release before the next one starts. *)
Lemma sequential_schedule (s0 : sched.state) (l d : list Config) :
  0 < cap -> (forall c, In c l -> work c = Ok tt) ->
  sched.reachable cap work s0 (sched.mkState (sched.Looping l last) 0 [] 0 d) ->
  sched.reachable cap work s0 (sched.mkState (sched.Looping [] last) 0 [] 0 (rev l ++ d)).
Proof.
  intros Hcap. revert d; induction l as [|c l IH]; intros d Hwork Hreach; [assumption|].
  cbn [rev]. rewrite <- app_assoc. cbn [app]. apply IH.
  - intros x Hx. apply Hwork. now right.
  - apply sched.reach_step with (sched.mkState (sched.Looping l last) 1 [] 1 (c :: d)).
    + apply sched.reach_step with (sched.mkState (sched.Looping l last) 1 [c] 0 d).
      * apply sched.reach_step with (sched.mkState (sched.Starting c l last) 1 [] 0 d).
        -- apply sched.reach_step with (sched.mkState (sched.Looping (c :: l) last) 0 [] 0 d);
             [assumption|]. split; [reflexivity | now apply sched.step_acquire].
        -- split; [reflexivity | apply sched.step_go].
      * split; [reflexivity|].
        apply (sched.step_work_done cap work (sched.Looping l last) 1 [] c [] 0 d).
        apply Hwork. now left.
    + split; [reflexivity | apply sched.step_release].
Qed.

Lemma drain_schedule (s0 : sched.state) (k n : nat) (d : list Config) :
  n + k = cap ->
  sched.reachable cap work s0 (sched.mkState (sched.Draining k) n [] 0 d) ->
  sched.reachable cap work s0 (sched.mkState sched.Returned cap [] 0 d).
Proof.
  revert n; induction k as [|k IH]; intros n Hn Hreach.
  - assert (E : n = cap) by lia. subst n.
    apply sched.reach_step with (sched.mkState (sched.Draining 0) cap [] 0 d); [assumption|].
    split; [reflexivity | apply sched.step_return].
  - apply (IH (S n)); [lia|].
    apply sched.reach_step with (sched.mkState (sched.Draining (S k)) n [] 0 d); [assumption|].
    split; [reflexivity | apply sched.step_drain; lia].
Qed.

(** With one slot or more and no panic, [main] can return, all work done. *)
Lemma can_return :
  0 < cap -> last = Ok tt -> (forall c, In c todo -> work c = Ok tt) ->
  sched.reachable cap work (sched.init todo last)
    (sched.mkState sched.Returned cap [] 0 (rev todo)).
Proof.
  intros Hcap Hlast Hwork.
  apply (drain_schedule _ cap 0); [lia|].
  apply sched.reach_step with (sched.mkState (sched.Looping [] last) 0 [] 0 (rev todo)).
  - rewrite <- (app_nil_r (rev todo)).
    apply sequential_schedule; [assumption | assumption | apply sched.reach_init].
  - split; [reflexivity|]. rewrite Hlast. apply sched.step_loops_end.
Qed.

End Gate.

(** C7. With [N] the number of processors, at no point of a run of [main]
    are more than [N] goroutines at work: the slots taken never exceed [N],
    and each goroutine at work or about to release holds one, taken by the
    main goroutine before it started the goroutine.  When [main] returns it
    holds all [N] slots: no goroutine is at work or about to release, and
    the goroutines that completed their work are those that the loops
    started, each with work that returned. *)
Theorem admission_bound (h : Host) (s : sched.state) :
  main_reachable h s ->
  List.length (sched.working s) <= runtime_NumCPU h /\
  sched.sem s <= runtime_NumCPU h /\
  List.length (sched.working s) + sched.releasing s <= sched.sem s /\
  (sched.pc s = sched.Returned ->
   sched.working s = [] /\ sched.releasing s = 0 /\ sched.sem s = runtime_NumCPU h /\
   Permutation (sched.completed s) (snd (main_loops h [])) /\
   forall c, In c (sched.completed s) -> task h c = Ok tt).
Proof.
  intros Hreach.
  pose proof (gate_invariant_reachable _ _ _ _ _ Hreach) as (Hsem & Hslots & _ & Hperm).
  split; [lia|]. split; [lia|]. split; [lia|].
  intros Hpc. rewrite Hpc in Hperm, Hslots. cbn [pending app sched.main_slots] in *.
  assert (Hw : sched.working s = []).
  { destruct (sched.working s); [reflexivity | cbn [List.length] in Hslots; lia]. }
  rewrite Hw in *. cbn [List.length app] in *.
  split; [reflexivity|]. split; [lia|]. split; [lia|]. split; [exact Hperm|].
  apply (completed_work_ok _ _ _ _ _ Hreach).
Qed.

(** The matrix of [main] on the synthetic host: the loops start 56
    goroutines and every one of them does its work. *)
Lemma main_synthetic_tasks :
  fst (main_loops synthetic_host []) = Ok tt /\
  List.length (snd (main_loops synthetic_host [])) = 56 /\
  forall c, In c (snd (main_loops synthetic_host [])) -> task synthetic_host c = Ok tt.
Proof.
  split; [vm_compute; reflexivity|]. split; [vm_compute; reflexivity|].
  assert (H : forallb (fun c => match task synthetic_host c with Ok _ => true | Panic _ => false end)
                (snd (main_loops synthetic_host [])) = true) by (vm_compute; reflexivity).
  intros c Hc. rewrite forallb_forall in H. specialize (H c Hc).
  destruct (task synthetic_host c) as [[]|p]; [reflexivity | discriminate].
Qed.

(** A run of [main] on the synthetic host, with four slots, that returns:
    it ends with no goroutine at work and all 56 completed. *)
Lemma admission_bound_witness :
  exists s, main_reachable synthetic_host s /\ sched.pc s = sched.Returned /\
            sched.working s = [] /\ sched.sem s = 4 /\
            Permutation (sched.completed s) (snd (main_loops synthetic_host [])).
Proof.
  destruct main_synthetic_tasks as (Hlast & _ & Hwork).
  assert (Hr : main_reachable synthetic_host
                 (sched.mkState sched.Returned 4 [] 0 (rev (snd (main_loops synthetic_host []))))).
  { apply (can_return 4 (task synthetic_host) (snd (main_loops synthetic_host []))
             (fst (main_loops synthetic_host []))); [lia | exact Hlast | exact Hwork]. }
  eexists. split; [exact Hr|].
  destruct (admission_bound synthetic_host _ Hr) as (_ & _ & _ & H).
  destruct (H eq_refl) as (Hw & _ & Hs & Hp & _).
  split; [reflexivity|]. split; [exact Hw|]. split; [exact Hs | exact Hp].
Defined.

(** ** The earlier revision *)

(** The output path of the earlier revision does not depend on [BuildTime]
    either. *)
Lemma OutputPath_legacy_ignores_BuildTime (c1 c2 : legacy.Config) :
  legacy.snapshot c1 = legacy.snapshot c2 -> legacy.OutputPath c1 = legacy.OutputPath c2.
Proof.
  unfold legacy.snapshot. intros [= HN HE HV HO HL HS HT].
  unfold legacy.OutputPath, legacy.snapshot. now rewrite HN, HE, HV, HO, HL, HS, HT.
Qed.

(** It follows the same scheme, with a hash that covers [GoExe] as well,
    and slices [LinkMode] in the same way. *)
Lemma OutputPath_legacy_eq (c : legacy.Config) :
  legacy.OutputPath c =
  if (3 <=? length (legacy.LinkMode c))%nat then
    match legacy.json_Marshal (legacy.snapshot c) with
    | Ok b =>
        Ok (filepath.Join
              [out;
               legacy.Name c ++ "-" ++ legacy.GoVersion c ++ "-" ++ legacy.GOOS c ++ "-" ++
               substring 0 3 (legacy.LinkMode c) ++ "lnk" ++
               (if legacy.StripDebug c then "-strip" else "") ++
               (if legacy.TrimPath c then "-trimpath" else "") ++
               "-" ++ hex8 (fnv.Write fnv.offset32 b) ++
               (if legacy.GOOS c =? "windows" then ".exe" else "")])
    | Panic p => Panic p
    end
  else Panic (SliceBoundsOutOfRange 3 (length (legacy.LinkMode c))).
Proof.
  unfold legacy.OutputPath, slice_to.
  destruct (3 <=? length (legacy.LinkMode c))%nat; [|reflexivity].
  cbn [bind]. destruct (legacy.json_Marshal (legacy.snapshot c)) as [b|p]; [|reflexivity].
  cbn [bind]. rewrite EncodeToString_Sum. do 2 f_equal. unfold fnv.New32a.
  destruct (legacy.StripDebug c), (legacy.TrimPath c), (legacy.GOOS c =? "windows");
    repeat rewrite append_assoc; cbn [append]; repeat rewrite append_nil_r; reflexivity.
Qed.

(** X23. The loops of the earlier revision apply the two filters, and
    nothing else: the body starts a goroutine exactly when the toolchain
    reports a version with a minor number that passes them, and there is
    no comparison of the reported version with the name of the
    executable, which the configuration keeps in [GoExe]. *)
Lemma loop_body_legacy_started (h : Host) (name : string) (buildTime : time.Time)
    (exe GOOS : string) (trimpath : bool) (linkmode : string) (strip : bool)
    (c : legacy.Config) :
  legacy.loop_body h name buildTime exe GOOS trimpath linkmode strip = Ok (Some c) <->
  exists version v,
    goVersion h exe = Ok version /\ minor version = Some v /\
    (trimpath = true -> (13 <= v)%Z) /\ (linkmode = "external" -> GOOS = runtime_GOOS h) /\
    c = legacy.mkConfig name exe version GOOS linkmode strip trimpath buildTime.
Proof.
  unfold legacy.loop_body, index_at. split.
  - destruct (goVersion h exe) as [version|p]; [|discriminate]. cbn [bind].
    intros H. exists version. rewrite minor_eq.
    destruct (nth_error (Split version ".") 1) as [field|]; [|discriminate]. cbn [bind] in H.
    destruct (strconv.Atoi field) as [v|]; [|discriminate]. cbn [bind] in H.
    exists v.
    destruct (trimpath && (v <? 13)%Z) eqn:Et; [discriminate|].
    destruct ((linkmode =? "external") && negb (runtime_GOOS h =? GOOS)) eqn:El;
      [discriminate|].
    injection H as <-. repeat split.
    + intros ->. cbn [andb] in Et. now apply Z.ltb_ge in Et.
    + intros ->. rewrite String.eqb_refl in El. cbn [andb] in El.
      apply negb_false_iff, String.eqb_eq in El. now symmetry.
  - intros (version & v & Hv & Hm & Ht & Hl & ->). rewrite Hv. cbn [bind].
    rewrite minor_eq in Hm.
    destruct (nth_error (Split version ".") 1) as [field|]; [|discriminate]. cbn [bind].
    rewrite Hm. cbn [bind].
    assert (Et : trimpath && (v <? 13)%Z = false).
    { destruct trimpath; [|reflexivity]. cbn [andb]. apply Z.ltb_ge. now apply Ht. }
    assert (El : (linkmode =? "external") && negb (runtime_GOOS h =? GOOS) = false).
    { destruct (String.eqb_spec linkmode "external") as [E|_]; [|reflexivity].
      cbn [andb]. rewrite (Hl E), String.eqb_refl. reflexivity. }
    now rewrite Et, El.
Qed.

(** On a host where [go] is a toolchain of version 1.14, the earlier loops
    start goroutines for the executable [go], while the loops of [build.go]
    panic at a toolchain that does not report its own name. *)
Lemma loop_body_legacy_no_check :
  legacy.loop_body go_host "hello" time.zero "go" "linux" true "internal" false =
    Ok (Some (legacy.mkConfig "hello" "go" "go1.14" "linux" "internal" false true time.zero)) /\
  loop_body go_host "hello" time.zero "go" "linux" true "internal" false [] =
    (Panic (InconsistentGoVersion "go" "go1.14"), []).
Proof. split; reflexivity. Qed.

(** ** Output paths that coincide *)

Lemma split_at_first (ch : ascii) (a1 a2 r1 r2 : string) :
  lacks ch a1 = true -> lacks ch a2 = true ->
  a1 ++ String ch r1 = a2 ++ String ch r2 -> a1 = a2 /\ r1 = r2.
Proof.
  revert a2; induction a1 as [|c a1 IH]; intros [|d a2] H1 H2 E; cbn [append lacks] in *.
  - injection E as ->. now split.
  - injection E as <- _. rewrite Ascii.eqb_refl in H2. discriminate H2.
  - injection E as -> _. rewrite Ascii.eqb_refl in H1. discriminate H1.
  - injection E as -> E. apply andb_true_iff in H1, H2.
    destruct (IH a2 (proj2 H1) (proj2 H2) E) as [-> ->]. now split.
Qed.

Lemma append_inj_length (a b x y : string) :
  length a = length b -> a ++ x = b ++ y -> a = b /\ x = y.
Proof.
  revert b; induction a as [|c a IH]; intros [|d b] Hl E; cbn [length append] in *;
    try discriminate Hl.
  - now split.
  - injection E as -> E. injection Hl as Hl. destruct (IH b Hl E) as [-> ->]. now split.
Qed.

Lemma append_inj_length_r (a b x y : string) :
  length x = length y -> a ++ x = b ++ y -> a = b /\ x = y.
Proof.
  intros Hl E. apply append_inj_length; [|assumption].
  apply (f_equal length) in E. rewrite !length_append in E. lia.
Qed.

Lemma flags_tail_inj (s1 t1 s2 t2 : bool) (x1 x2 e : string) :
  length x1 = length x2 ->
  flags s1 t1 ++ "-" ++ x1 ++ e = flags s2 t2 ++ "-" ++ x2 ++ e ->
  s1 = s2 /\ t1 = t2 /\ x1 = x2.
Proof.
  intros Hx E.
  assert (Hl : length (flags s1 t1) = length (flags s2 t2)).
  { apply (f_equal length) in E. rewrite !length_append in E. lia. }
  apply append_inj_length in E; [|assumption]. destruct E as [_ E].
  cbn [append] in E. injection E as E.
  apply append_inj_length in E; [|assumption].
  destruct s1, t1, s2, t2; cbn in Hl; try discriminate Hl; tauto.
Qed.

Lemma spec_filename_flags (c : Config) :
  spec_filename c =
  Name c ++ "-" ++ GoVersion c ++ "-" ++ GOOS c ++ "-" ++
  substring 0 3 (LinkMode c) ++ "lnk" ++ flags (StripDebug c) (TrimPath c) ++ "-" ++
  hex8 (hash32 c) ++ (if GOOS c =? "windows" then ".exe" else "").
Proof. unfold spec_filename, flags. now rewrite !append_assoc. Qed.

(** Two configurations without a slash in their fields that have the same
    output path have the same file name. *)
Lemma OutputPath_same_filename (c1 c2 : Config) (p : string) :
  no_slash (Name c1 ++ GoVersion c1 ++ GOOS c1 ++ LinkMode c1) = true ->
  no_slash (Name c2 ++ GoVersion c2 ++ GOOS c2 ++ LinkMode c2) = true ->
  OutputPath c1 = Ok p -> OutputPath c2 = Ok p ->
  3 <= length (LinkMode c1) /\ 3 <= length (LinkMode c2) /\
  spec_filename c1 = spec_filename c2.
Proof.
  intros S1 S2 E1 E2. rewrite OutputPath_eq in E1, E2.
  destruct (Nat.leb_spec 3 (length (LinkMode c1))) as [L1|]; [|discriminate E1].
  destruct (Nat.leb_spec 3 (length (LinkMode c2))) as [L2|]; [|discriminate E2].
  split; [assumption|]. split; [assumption|].
  rewrite Join_out in E1, E2
    by (try apply no_slash_spec_filename; try apply length_spec_filename; assumption).
  apply (append_inj_l (out ++ "/")). rewrite !append_assoc. congruence.
Qed.

(** The file name of a plain configuration can be read back: the dashes
    delimit the name, the version and the platform, three bytes of the link
    mode follow, and the flags and the hash are read from the end. *)
Lemma spec_filename_fields (c1 c2 : Config) :
  plain_config c1 -> plain_config c2 ->
  3 <= length (LinkMode c1) -> 3 <= length (LinkMode c2) ->
  spec_filename c1 = spec_filename c2 ->
  Name c1 = Name c2 /\ GoVersion c1 = GoVersion c2 /\ GOOS c1 = GOOS c2 /\
  substring 0 3 (LinkMode c1) = substring 0 3 (LinkMode c2) /\
  StripDebug c1 = StripDebug c2 /\ TrimPath c1 = TrimPath c2 /\
  hash32 c1 = hash32 c2.
Proof.
  intros (N1 & V1 & G1 & S1) (N2 & V2 & G2 & S2) L1 L2 E.
  rewrite !spec_filename_flags in E.
  apply split_at_first in E; try assumption. destruct E as [HN E].
  apply split_at_first in E; try assumption. destruct E as [HV E].
  apply split_at_first in E; try assumption. destruct E as [HG E].
  apply append_inj_length in E; [|now rewrite !length_substring_0]. destruct E as [HL E].
  apply append_inj_l in E. rewrite HG in E.
  apply flags_tail_inj in E; [|reflexivity]. destruct E as (HS & HT & HH).
  apply hex8_inj in HH; auto using hash32_range. tauto.
Qed.

(** X1. When output paths coincide.  Two configurations whose name, version
    and platform have neither a dash nor a slash, and whose link modes
    have no slash and three bytes or more, have the same output path
    exactly when they agree on the name, the version, the platform, the
    first three bytes of the link mode, the two flags and the 32-bit hash:
    the rest of the link mode shows in the path through the hash only. *)
Theorem OutputPath_collision_shape (c1 c2 : Config) :
  plain_config c1 -> plain_config c2 ->
  3 <= length (LinkMode c1) -> 3 <= length (LinkMode c2) ->
  (OutputPath c1 = OutputPath c2 <->
   Name c1 = Name c2 /\ GoVersion c1 = GoVersion c2 /\ GOOS c1 = GOOS c2 /\
   substring 0 3 (LinkMode c1) = substring 0 3 (LinkMode c2) /\
   StripDebug c1 = StripDebug c2 /\ TrimPath c1 = TrimPath c2 /\
   hash32 c1 = hash32 c2).
Proof.
  intros P1 P2 L1 L2. split.
  - intros E. apply spec_filename_fields; try assumption.
    pose proof P1 as (_ & _ & _ & S1). pose proof P2 as (_ & _ & _ & S2).
    apply (OutputPath_same_filename c1 c2 (filepath.Join [out; spec_filename c2]));
      try assumption.
    + rewrite E, OutputPath_eq. apply Nat.leb_le in L2. now rewrite L2.
    + rewrite OutputPath_eq. apply Nat.leb_le in L2. now rewrite L2.
  - intros (HN & HV & HG & HL & HS & HT & HH).
    rewrite !OutputPath_eq. apply Nat.leb_le in L1, L2. rewrite L1, L2.
    do 3 f_equal. unfold spec_filename. now rewrite HN, HV, HG, HL, HS, HT, HH.
Qed.

(** The two configurations of the collision: their link modes differ, and
    they agree on everything that the path shows. *)
Lemma OutputPath_collision_shape_witness :
  substring 0 3 (LinkMode cfg_internal) = substring 0 3 (LinkMode cfg_collides) /\
  hash32 cfg_internal = hash32 cfg_collides.
Proof.
  assert (P1 : plain_config cfg_internal) by (repeat split; reflexivity).
  assert (P2 : plain_config cfg_collides) by (repeat split; reflexivity).
  assert (L1 : 3 <= length (LinkMode cfg_internal)) by (cbn; lia).
  assert (L2 : 3 <= length (LinkMode cfg_collides)) by (cbn; lia).
  assert (E : OutputPath cfg_internal = OutputPath cfg_collides) by (vm_compute; reflexivity).
  destruct (proj1 (OutputPath_collision_shape cfg_internal cfg_collides P1 P2 L1 L2) E)
    as (_ & _ & _ & H3 & _ & _ & Hh).
  split; assumption.
Defined.

Lemma NoDup_flat_map {A B : Type} (g : A -> list B) (xs : list A) :
  NoDup xs -> (forall x, In x xs -> NoDup (g x)) ->
  (forall x y b, In x xs -> In y xs -> In b (g x) -> In b (g y) -> x = y) ->
  NoDup (flat_map g xs).
Proof.
  induction 1 as [|x xs Hx Hxs IH]; intros Hg Hd; cbn [flat_map]; [constructor|].
  apply NoDup_app.
  - apply Hg. now left.
  - apply IH.
    + intros y Hy. apply Hg. now right.
    + intros y z b Hy Hz. apply Hd; now right.
  - intros b Hb Hb'. apply in_flat_map in Hb'. destruct Hb' as (y & Hy & Hby).
    assert (x = y) by (apply (Hd x y b); auto; (now left) || (now right)).
    subst y. contradiction.
Qed.

Lemma NoDup_map_injective {A B : Type} (g : A -> B) (xs : list A) :
  (forall x y, g x = g y -> x = y) -> NoDup xs -> NoDup (map g xs).
Proof.
  intros Hg. induction 1 as [|x xs Hx Hxs IH]; cbn [map]; constructor; [|assumption].
  intros Hin. apply in_map_iff in Hin. destruct Hin as (y & E & Hy).
  apply Hg in E. now subst y.
Qed.

Lemma NoDup_product (ax : Axes) :
  NoDup (versions ax) -> NoDup (platforms ax) -> NoDup (trimpaths ax) ->
  NoDup (linkmodes ax) -> NoDup (strips ax) -> NoDup (product ax).
Proof.
  intros Hv Hg Ht Hl Hs. unfold product.
  apply NoDup_flat_map; [assumption | intros exe _ | ].
  - apply NoDup_flat_map; [assumption | intros GOOS _ | ].
    + apply NoDup_flat_map; [assumption | intros trimpath _ | ].
      * apply NoDup_flat_map; [assumption | intros linkmode _ | ].
        -- apply NoDup_map_injective; [|assumption]. now intros x y [= ->].
        -- intros x y b _ _ Hx Hy. apply in_map_iff in Hx, Hy.
           destruct Hx as (? & <- & _). destruct Hy as (? & [= -> _] & _). reflexivity.
      * intros x y b _ _ Hx Hy. apply in_flat_map in Hx, Hy.
        destruct Hx as (? & _ & Hx). destruct Hy as (? & _ & Hy).
        apply in_map_iff in Hx, Hy.
        destruct Hx as (? & <- & _). destruct Hy as (? & [= -> _ _] & _). reflexivity.
    + intros x y b _ _ Hx Hy. apply in_flat_map in Hx, Hy.
      destruct Hx as (? & _ & Hx). destruct Hy as (? & _ & Hy).
      apply in_flat_map in Hx, Hy.
      destruct Hx as (? & _ & Hx). destruct Hy as (? & _ & Hy).
      apply in_map_iff in Hx, Hy.
      destruct Hx as (? & <- & _). destruct Hy as (? & [= -> _ _ _] & _). reflexivity.
  - intros x y b _ _ Hx Hy. apply in_flat_map in Hx, Hy.
    destruct Hx as (? & _ & Hx). destruct Hy as (? & _ & Hy).
    apply in_flat_map in Hx, Hy.
    destruct Hx as (? & _ & Hx). destruct Hy as (? & _ & Hy).
    apply in_flat_map in Hx, Hy.
    destruct Hx as (? & _ & Hx). destruct Hy as (? & _ & Hy).
    apply in_map_iff in Hx, Hy.
    destruct Hx as (? & <- & _). destruct Hy as (? & [= -> _ _ _ _] & _). reflexivity.
Qed.

(** A loop whose bodies each start at most the goroutine of their element
    starts no goroutine twice. *)
Lemma for_range_NoDup {A : Type} (f : A -> M unit) (g : A -> Config) (xs : list A) :
  (forall y, appends (f y)) ->
  (forall x, snd (f x []) = [] \/ snd (f x []) = [g x]) ->
  NoDup (map g xs) -> NoDup (snd (for_range xs f [])).
Proof.
  intros Hf Hone. induction xs as [|x xs IH]; intros Hnd; [constructor|].
  cbn [map] in Hnd. inversion Hnd as [|? ? Hx Hxs]; subst.
  destruct (for_range_cons_appends f x xs Hf) as [-> _].
  assert (Hrest : forall c, In c (snd (for_range xs f [])) -> In c (map g xs)).
  { intros c Hc. apply (for_range_started f Hf) in Hc. destruct Hc as (y & Hy & Hc).
    destruct (Hone y) as [E|E]; rewrite E in Hc; [destruct Hc|].
    destruct Hc as [<-|[]]. now apply in_map. }
  destruct (fst (f x [])) as [[]|p]; cbn [snd].
  - destruct (Hone x) as [->| ->]; cbn [app]; [now apply IH|].
    constructor; [|now apply IH]. intros Hin. apply Hx. now apply Hrest.
  - destruct (Hone x) as [->| ->]; constructor; [intros []|constructor].
Qed.

Lemma body_one (h : Host) (name : string) (buildTime : time.Time) (cb : Combo) :
  snd (body h name buildTime cb []) = [] \/
  snd (body h name buildTime cb []) = [to_config name buildTime cb].
Proof.
  destruct cb as [[[[exe GOOS] trimpath] linkmode] strip]. cbn [body to_config].
  rewrite loop_body_eq.
  destruct (goVersion h exe) as [version|p]; [|now left].
  destruct (String.eqb_spec version exe) as [->|Hne]; cbn [negb]; [|now left].
  destruct (nth_error (Split exe ".") 1) as [field|]; [|now left].
  destruct (strconv.Atoi field) as [v|]; [|now left].
  destruct (trimpath && (v <? 13)%Z); [now left|].
  destruct ((linkmode =? "external") && negb (runtime_GOOS h =? GOOS)); [now left | now right].
Qed.

Lemma enumerated_NoDup (h : Host) (name : string) (buildTime : time.Time) (ax : Axes) :
  NoDup (versions ax) -> NoDup (platforms ax) -> NoDup (trimpaths ax) ->
  NoDup (linkmodes ax) -> NoDup (strips ax) ->
  NoDup (enumerated h name buildTime ax).
Proof.
  intros Hv Hg Ht Hl Hs. rewrite enumerated_eq.
  apply (for_range_NoDup _ (to_config name buildTime)).
  - apply body_appends.
  - apply body_one.
  - apply NoDup_map_injective; [|now apply NoDup_product].
    intros [[[[e1 g1] t1] l1] s1] [[[[e2 g2] t2] l2] s2]. cbn [to_config].
    now intros [= -> -> -> -> ->].
Qed.

(** X2. No two goroutines write to the same path.  On any host, when the
    name, the versions and the platforms of the axes have neither a dash
    nor a slash, the link modes have no slash and differ in their first
    three bytes, and no axis repeats a value (as in [main]), the loops
    start no goroutine twice, and two goroutines they start whose output
    paths are equal are the same goroutine. *)
Theorem started_paths_distinct (h : Host) (name : string) (buildTime : time.Time)
    (ax : Axes) :
  plain_axes name ax ->
  NoDup (enumerated h name buildTime ax) /\
  forall c1 c2 p,
    In c1 (enumerated h name buildTime ax) -> In c2 (enumerated h name buildTime ax) ->
    OutputPath c1 = Ok p -> OutputPath c2 = Ok p -> c1 = c2.
Proof.
  intros ((Hn & Hns) & Hvs & Hgs & Hls & Hinj & Hv & Hg & Ht & Hl & Hs).
  split; [now apply enumerated_NoDup|].
  intros c1 c2 p H1 H2 E1 E2.
  apply enumerated_inv in H1, H2.
  destruct H1 as (V1 & G1 & _ & L1 & _ & N1 & B1 & _).
  destruct H2 as (V2 & G2 & _ & L2 & _ & N2 & B2 & _).
  assert (P1 : plain_config c1).
  { unfold plain_config. rewrite N1, !no_slash_append, Hns, Hn.
    destruct (Hvs _ V1) as [-> ->]. destruct (Hgs _ G1) as [-> ->].
    rewrite (Hls _ L1). tauto. }
  assert (P2 : plain_config c2).
  { unfold plain_config. rewrite N2, !no_slash_append, Hns, Hn.
    destruct (Hvs _ V2) as [-> ->]. destruct (Hgs _ G2) as [-> ->].
    rewrite (Hls _ L2). tauto. }
  assert (E : 3 <= length (LinkMode c1) /\ 3 <= length (LinkMode c2) /\
              spec_filename c1 = spec_filename c2).
  { pose proof P1 as (_ & _ & _ & S1). pose proof P2 as (_ & _ & _ & S2).
    now apply (OutputPath_same_filename c1 c2 p). }
  destruct E as (Len1 & Len2 & E).
  destruct (spec_filename_fields c1 c2 P1 P2 Len1 Len2 E)
    as (HN & HV & HG & HL & HS & HT & _).
  apply Hinj in HL; try assumption.
  destruct c1, c2. cbn in *. congruence.
Qed.

Lemma main_axes_plain : plain_axes "hello" main_axes.
Proof.
  unfold plain_axes, main_axes. cbn [versions platforms trimpaths linkmodes strips].
  split; [split; reflexivity|].
  split; [intros v [<-|[<-|[<-|[<-|[<-|[]]]]]]; split; reflexivity|].
  split; [intros g [<-|[<-|[<-|[]]]]; split; reflexivity|].
  split; [intros l [<-|[<-|[]]]; reflexivity|].
  split.
  { intros l1 l2 [<-|[<-|[]]] [<-|[<-|[]]]; cbn; intros E; try reflexivity; discriminate E. }
  repeat split; repeat constructor; cbn; intuition discriminate.
Qed.

(** The axes of [main], on the synthetic host. *)
Lemma started_paths_distinct_witness :
  NoDup (enumerated synthetic_host "hello" time.zero main_axes).
Proof.
  apply (proj1 (started_paths_distinct synthetic_host "hello" time.zero main_axes
                  main_axes_plain)).
Defined.

(** ** The path of the compressed artifact *)

Lemma spec_filename_stem (c : Config) :
  spec_filename c = stem c ++ (if GOOS c =? "windows" then ".exe" else "").
Proof. rewrite spec_filename_flags. unfold stem. now rewrite !append_assoc. Qed.

Lemma hex8_not_exe (x q : string) (h : Z) : x ++ hex8 h <> q ++ ".exe".
Proof.
  intros E.
  change (hex8 h) with
    ((str1 (hex.digit (h / 16 ^ 7 mod 16)) ++ str1 (hex.digit (h / 16 ^ 6 mod 16)) ++
      str1 (hex.digit (h / 16 ^ 5 mod 16)) ++ str1 (hex.digit (h / 16 ^ 4 mod 16))) ++
     String (hex.digit (h / 16 ^ 3 mod 16))
       (str1 (hex.digit (h / 16 ^ 2 mod 16)) ++ str1 (hex.digit (h / 16 ^ 1 mod 16)) ++
        str1 (hex.digit (h / 16 ^ 0 mod 16))))%Z in E.
  rewrite <- append_assoc in E.
  apply append_inj_length_r in E; [|reflexivity].
  destruct E as [_ E]. injection E as E _.
  pose proof (digit_In (h / 16 ^ 3 mod 16) (nibble_range h 3)) as Hin.
  assert (E' : hex.digit (h / 16 ^ 3 mod 16) = "."%char) by exact E.
  rewrite E' in Hin. cbn in Hin. intuition discriminate.
Qed.

Lemma upx_out_exe (p : string) : upx_out (p ++ ".exe") = p ++ "-upx" ++ ".exe".
Proof.
  unfold upx_out. rewrite TrimSuffix_append.
  replace (strings.HasSuffix (p ++ ".exe") ".exe") with true
    by (symmetry; apply HasSuffix_iff; now exists p).
  apply append_assoc.
Qed.

Lemma upx_out_plain (s : string) : (forall q, s <> q ++ ".exe") -> upx_out s = s ++ "-upx".
Proof.
  intros Hno. unfold upx_out, strings.TrimSuffix.
  destruct (strings.HasSuffix s ".exe") eqn:E; [|reflexivity].
  apply HasSuffix_iff in E. destruct E as [q Hq]. now elim (Hno q).
Qed.

(** X3. The compressed artifact of a configuration.  For a configuration
    without a slash in its fields, the output path is [dist/], the stem of
    the file name and [.exe] on windows, and [upx] writes to [dist/], the
    same stem, [-upx], and [.exe] on windows: the hash at the end of the
    stem is never mistaken for the extension. *)
Theorem upx_of_OutputPath (c : Config) (p : string) :
  no_slash (Name c ++ GoVersion c ++ GOOS c ++ LinkMode c) = true ->
  OutputPath c = Ok p ->
  p = "dist/" ++ stem c ++ (if GOOS c =? "windows" then ".exe" else "") /\
  upx_out p = "dist/" ++ stem c ++ "-upx" ++ (if GOOS c =? "windows" then ".exe" else "").
Proof.
  intros Hs E. rewrite OutputPath_eq in E.
  destruct (3 <=? length (LinkMode c))%nat; [|discriminate E].
  rewrite Join_out in E
    by (try apply no_slash_spec_filename; try apply length_spec_filename; assumption).
  injection E as <-. rewrite spec_filename_stem.
  change (out ++ "/" ++ ?x) with ("dist/" ++ x).
  split; [reflexivity|].
  destruct (GOOS c =? "windows").
  - change (upx_out (("dist/" ++ stem c) ++ ".exe") = "dist/" ++ stem c ++ "-upx" ++ ".exe").
    rewrite upx_out_exe. now rewrite append_assoc.
  - rewrite !append_nil_r.
    change (upx_out ("dist/" ++ stem c) = ("dist/" ++ stem c) ++ "-upx").
    apply upx_out_plain.
    intros q Hq. unfold stem in Hq. rewrite <- !append_assoc in Hq.
    now apply hex8_not_exe in Hq.
Qed.

(** A windows configuration of the matrix. *)
Lemma upx_of_OutputPath_witness :
  upx_out "dist/hello-go1.13.8-windows-intlnk-strip-trimpath-4b0208d0.exe" =
  "dist/" ++ stem (mkConfig "hello" "go1.13.8" "windows" "internal" true true time.zero) ++
  "-upx" ++ ".exe".
Proof.
  apply (proj2 (upx_of_OutputPath
                  (mkConfig "hello" "go1.13.8" "windows" "internal" true true time.zero)
                  "dist/hello-go1.13.8-windows-intlnk-strip-trimpath-4b0208d0.exe"
                  eq_refl eq_refl)).
Defined.

(** ** A name with a slash *)

Lemma genSplit_lacks (ch : ascii) (s cur : string) :
  lacks ch s = true -> strings.genSplit (str1 ch) s 0 cur = [cur ++ s].
Proof.
  revert cur; induction s as [|c s IH]; intros cur Hs; cbn [strings.genSplit lacks] in *.
  - now rewrite append_nil_r.
  - apply andb_true_iff in Hs. destruct Hs as [Hc Hs].
    unfold str1 at 1. rewrite prefix_cons, Ascii.eqb_sym.
    destruct (Ascii.eqb c ch); [discriminate|]. cbn [andb].
    rewrite IH by assumption. unfold str1. now rewrite append_assoc.
Qed.

Lemma genSplit_first (ch : ascii) (a r cur : string) :
  lacks ch a = true ->
  strings.genSplit (str1 ch) (a ++ String ch r) 0 cur =
  (cur ++ a) :: strings.genSplit (str1 ch) r 0 "".
Proof.
  revert cur; induction a as [|c a IH]; intros cur Ha; cbn [append lacks] in *.
  - cbn [strings.genSplit]. unfold str1 at 1.
    rewrite prefix_cons, Ascii.eqb_refl, prefix_nil. cbn [andb length Nat.sub str1].
    now rewrite append_nil_r.
  - apply andb_true_iff in Ha. destruct Ha as [Hc Ha].
    cbn [strings.genSplit]. unfold str1 at 1. rewrite prefix_cons, Ascii.eqb_sym.
    destruct (Ascii.eqb c ch); [discriminate|]. cbn [andb].
    rewrite IH by assumption. unfold str1. now rewrite append_assoc.
Qed.

Lemma no_slash_lacks (s : string) : no_slash s = lacks "/" s.
Proof. induction s as [|c s IH]; cbn; [reflexivity | now rewrite IH]. Qed.

(** X4. The artifact can leave the output directory.  When [Name] begins
    with [../] and nothing else in the fields has a slash, [filepath.Join]
    cancels [dist] against the two dots: the output path is the file name
    without its [../], a file of the current directory. *)
Theorem OutputPath_escapes_dist (c : Config) (n : string) :
  Name c = "../" ++ n ->
  no_slash (n ++ GoVersion c ++ GOOS c ++ LinkMode c) = true ->
  3 <= length (LinkMode c) ->
  exists file,
    spec_filename c = "../" ++ file /\ no_slash file = true /\ OutputPath c = Ok file.
Proof.
  intros Hn Hs Hl.
  set (file := n ++ "-" ++ GoVersion c ++ "-" ++ GOOS c ++ "-" ++
               substring 0 3 (LinkMode c) ++ "lnk" ++
               (if StripDebug c then "-strip" else "") ++
               (if TrimPath c then "-trimpath" else "") ++
               "-" ++ hex8 (hash32 c) ++ (if GOOS c =? "windows" then ".exe" else "")).
  assert (Hfile : spec_filename c = "../" ++ file).
  { unfold spec_filename, file. rewrite Hn. now rewrite !append_assoc. }
  assert (Hns : no_slash file = true).
  { repeat rewrite no_slash_append in Hs.
    repeat (apply andb_true_iff in Hs; destruct Hs as [? Hs]).
    unfold file. repeat rewrite no_slash_append. rewrite no_slash_hex8.
    assert (Hl3 : no_slash (substring 0 3 (LinkMode c)) = true).
    { destruct (LinkMode c) as [|a [|b [|d l]]]; cbn [length] in Hl; try lia.
      cbn [no_slash substring] in *.
      repeat (apply andb_true_iff in Hs; destruct Hs as [? Hs]).
      rewrite substring_0_0. cbn [no_slash].
      repeat (apply andb_true_iff; split); try assumption; reflexivity. }
    rewrite Hl3.
    repeat match goal with Hx : no_slash _ = true |- _ => rewrite Hx; clear Hx end.
    now destruct (StripDebug c), (TrimPath c), (GOOS c =? "windows"). }
  assert (Hlen : 3 <= length file).
  { unfold file. repeat rewrite length_append. rewrite length_hex8. lia. }
  exists file. split; [assumption|]. split; [assumption|].
  rewrite OutputPath_eq. replace (3 <=? length (LinkMode c))%nat with true
    by (symmetry; now apply Nat.leb_le).
  f_equal. rewrite Hfile.
  unfold filepath.Join, out. cbn [String.eqb Ascii.eqb Bool.eqb strings.Join].
  unfold filepath.Clean, Split.
  assert (Hsplit : strings.genSplit "/" ("dist" ++ "/" ++ "../" ++ file) 0 "" =
                   ["dist"; ".."; file]).
  { change "/" with (str1 "/"%char) at 1.
    change ("dist" ++ "/" ++ "../" ++ file) with ("dist" ++ String "/" (".." ++ String "/" file)).
    rewrite !genSplit_first by reflexivity.
    rewrite genSplit_lacks by now rewrite <- no_slash_lacks. reflexivity. }
  rewrite Hsplit. cbn [fold_left].
  assert (Hp : prefix "/" ("dist" ++ "/" ++ "../" ++ file) = false) by reflexivity.
  assert (P1 : filepath.push false [] "dist" = ["dist"]) by reflexivity.
  assert (P2 : filepath.push false ["dist"] ".." = []) by reflexivity.
  assert (P3 : filepath.push false [] file = [file]).
  { unfold filepath.push.
    rewrite (eqb_length_neq file "") by (cbn; lia).
    rewrite (eqb_length_neq file ".") by (cbn; lia).
    rewrite (eqb_length_neq file "..") by (cbn; lia). reflexivity. }
  rewrite Hp, P1, P2, P3. cbn [rev app strings.Join].
  now rewrite (eqb_length_neq file "") by (cbn; lia).
Qed.

(** The name [../evil]. *)
Lemma OutputPath_escapes_dist_witness :
  exists file,
    spec_filename (mkConfig "../evil" "go1.14" "linux" "internal" false false time.zero) =
      "../" ++ file /\
    no_slash file = true /\
    OutputPath (mkConfig "../evil" "go1.14" "linux" "internal" false false time.zero) = Ok file.
Proof.
  apply (OutputPath_escapes_dist
           (mkConfig "../evil" "go1.14" "linux" "internal" false false time.zero) "evil").
  - reflexivity.
  - reflexivity.
  - cbn. lia.
Defined.

(** ** The build command and the work of a goroutine *)

Lemma MarshalJSON_returns (t : time.Time) :
  time.MarshalJSON t =
  if ((time.Year t <? 0) || (10000 <=? time.Year t))%Z then Panic MarshalError
  else Ok (quoted (time.FormatRFC3339Nano t)).
Proof. reflexivity. Qed.

Lemma year_in_range_dec (c : Config) :
  ((time.Year (BuildTime c) <? 0) || (10000 <=? time.Year (BuildTime c)))%Z = false <->
  year_in_range c.
Proof.
  unfold year_in_range. rewrite orb_false_iff, Z.ltb_ge, Z.leb_gt. tauto.
Qed.

Lemma Cmd_eq (h : Host) (c : Config) :
  Cmd h c =
  match json_MarshalIndent c with
  | Panic e => Panic e
  | Ok info =>
      match OutputPath c with
      | Panic e => Panic e
      | Ok p =>
          Ok (exec.mkCmd (GoVersion c)
                (["build"; "-o"; p; "-ldflags"; ldflags_of c info] ++
                 (if TrimPath c then ["-trimpath"] else []) ++ ["main.go"])%list
                (Some (os_Environ h ++ [("GOOS=" ++ GOOS c)%string])%list))
      end
  end.
Proof.
  unfold Cmd, ldflags_of. destruct (json_MarshalIndent c) as [info|e]; [|reflexivity].
  cbn [bind]. destruct (OutputPath c) as [p|e]; [|reflexivity]. cbn [bind].
  destruct (StripDebug c), (TrimPath c); cbn [exec.Command exec.Name exec.Args app];
    rewrite ?append_assoc, ?append_nil_r; reflexivity.
Qed.

(** X5. The build command of a configuration.  [Cmd] returns exactly when
    the year of [BuildTime] is within 0..9999 and [LinkMode] has three
    bytes or more; a year out of range is a marshalling panic, before the
    link mode is looked at.  The command runs the toolchain named by
    [GoVersion] with [build -o p -ldflags l], then [-trimpath] when
    [TrimPath] is set, then [main.go], where [p] is the output path of the
    configuration and [l] embeds its indented JSON form and its link mode,
    with [-s -w] when [StripDebug] is set; its environment is the
    environment of the process followed by the [GOOS] of the target. *)
Theorem Cmd_command (h : Host) (c : Config) :
  (returns (Cmd h c) <-> year_in_range c /\ 3 <= length (LinkMode c)) /\
  (~ year_in_range c -> Cmd h c = Panic MarshalError) /\
  (forall cmd, Cmd h c = Ok cmd ->
     exists info p,
       json_MarshalIndent c = Ok info /\ OutputPath c = Ok p /\
       cmd = exec.mkCmd (GoVersion c)
               (["build"; "-o"; p; "-ldflags"; ldflags_of c info] ++
                (if TrimPath c then ["-trimpath"] else []) ++ ["main.go"])%list
               (Some (os_Environ h ++ [("GOOS=" ++ GOOS c)%string])%list)).
Proof.
  rewrite Cmd_eq. unfold json_MarshalIndent. rewrite MarshalJSON_returns, OutputPath_eq.
  pose proof (year_in_range_dec c) as Hy.
  destruct ((time.Year (BuildTime c) <? 0) || (10000 <=? time.Year (BuildTime c)))%Z;
    cbn [bind].
  - split; [|split].
    + split; [intros [a Ha]; discriminate Ha | intros [Hr _]; apply Hy in Hr; discriminate Hr].
    + reflexivity.
    + discriminate.
  - assert (Hr : year_in_range c) by now apply Hy.
    destruct (Nat.leb_spec 3 (length (LinkMode c))) as [Hl|Hl].
    + split; [|split].
      * split; [now split | intros _; eexists; reflexivity].
      * intros Hn. now elim Hn.
      * intros cmd [= <-]. eexists. eexists. repeat split.
    + split; [|split].
      * split; [intros [a Ha]; discriminate Ha | intros [_ Hl']; lia].
      * intros Hn. now elim Hn.
      * discriminate.
Qed.

(** A configuration of the matrix, and one whose build time is in the year
    10000. *)
Lemma Cmd_command_witness :
  returns (Cmd synthetic_host cfg_internal) /\
  Cmd synthetic_host
      (mkConfig "hello" "go1.14" "linux" "internal" false false (time.mkTime 315537897600 0 0)) =
    Panic MarshalError.
Proof.
  split.
  - apply (proj1 (Cmd_command synthetic_host cfg_internal)).
    split; [unfold year_in_range; cbn; lia | cbn; lia].
  - apply (proj1 (proj2 (Cmd_command synthetic_host _))).
    unfold year_in_range. cbn. lia.
Defined.

Ltac normalise H :=
  repeat (progress (rewrite ?append_assoc in H; cbn [append str1] in H)).

(** X6. The JSON form that the build embeds in the binary tells
    configurations apart: two configurations with valid UTF-8 strings
    whose [-ldflags] values are equal are equal in every field except,
    possibly, [BuildTime]. *)
Theorem ldflags_identify_config (c1 c2 : Config) (info1 info2 : string) :
  valid_config c1 -> valid_config c2 ->
  json_MarshalIndent c1 = Ok info1 -> json_MarshalIndent c2 = Ok info2 ->
  ldflags_of c1 info1 = ldflags_of c2 info2 ->
  same_but_BuildTime c1 c2.
Proof.
  intros (N1 & V1 & O1 & L1) (N2 & V2 & O2 & L2) J1 J2 E.
  unfold json_MarshalIndent in J1, J2.
  destruct (time.MarshalJSON (BuildTime c1)) as [t1|]; [|discriminate J1].
  destruct (time.MarshalJSON (BuildTime c2)) as [t2|]; [|discriminate J2].
  cbn [bind] in J1, J2. injection J1 as <-. injection J2 as <-.
  unfold ldflags_of, Config_members, json.encodeString in E.
  cbn [map fst snd strings.Join] in E.
  repeat match type of E with
         | context [String.concat "" (map json.encodeRune (utf8.runes ?s))] =>
             fold (encodeRunes s) in E
         end.
  normalise E. strip_prefix E.
  apply encodeRunes_inj in E; [|assumption..]. destruct E as [HN E]. strip_prefix E.
  apply encodeRunes_inj in E; [|assumption..]. destruct E as [HV E]. strip_prefix E.
  apply encodeRunes_inj in E; [|assumption..]. destruct E as [HO E]. strip_prefix E.
  apply encodeRunes_inj in E; [|assumption..]. destruct E as [HL E]. strip_prefix E.
  assert (HS : StripDebug c1 = StripDebug c2).
  { destruct (StripDebug c1), (StripDebug c2); try reflexivity;
      cbn [json.encodeBool append] in E; discriminate E. }
  rewrite HS in E. apply append_inj_l in E. strip_prefix E.
  assert (HT : TrimPath c1 = TrimPath c2).
  { destruct (TrimPath c1), (TrimPath c2); try reflexivity;
      cbn [json.encodeBool append] in E; discriminate E. }
  unfold same_but_BuildTime. tauto.
Qed.

(** A configuration of the matrix and its [-ldflags]. *)
Lemma ldflags_identify_config_witness :
  same_but_BuildTime cfg_internal
    (mkConfig "hello" "go1.14" "linux" "internal" false false time.zero).
Proof.
  apply (ldflags_identify_config cfg_internal
           (mkConfig "hello" "go1.14" "linux" "internal" false false time.zero)
           (match json_MarshalIndent cfg_internal with Ok b => b | Panic _ => "" end)
           (match json_MarshalIndent cfg_internal with Ok b => b | Panic _ => "" end)).
  - repeat split; reflexivity.
  - repeat split; reflexivity.
  - vm_compute; reflexivity.
  - vm_compute; reflexivity.
  - reflexivity.
Defined.

(** X7. The work of one goroutine returns exactly when the build command
    can be made and succeeds and, where [upx] is available, the
    compression succeeds; [upx] is run with [-qq -f -o], the path of the
    compressed artifact and the output path of the build. *)
Theorem task_returns (h : Host) (c : Config) :
  task h c = Ok tt <->
  exists cmd p,
    Cmd h c = Ok cmd /\ OutputPath c = Ok p /\ exec_Run h cmd = true /\
    (hasUPX h = true ->
     exec_Run h (exec.mkCmd "upx" ["-qq"; "-f"; "-o"; upx_out p; p] None) = true).
Proof.
  unfold task, upx, mustRun, mustRunCmd, exec.Command. split.
  - destruct (OutputPath c) as [p|e]; [|discriminate]. cbn [bind].
    destruct (Cmd h c) as [cmd|e]; [|discriminate]. cbn [bind].
    destruct (exec_Run h cmd) eqn:Er; [|discriminate]. cbn [bind].
    intros H. exists cmd, p. split; [reflexivity|]. split; [reflexivity|].
    split; [exact Er|]. intros Hu. rewrite Hu in H.
    destruct (exec_Run h (exec.mkCmd "upx" ["-qq"; "-f"; "-o"; upx_out p; p] None));
      [reflexivity | discriminate H].
  - intros (cmd & p & -> & -> & Er & Hu). cbn [bind]. rewrite Er. cbn [bind].
    destruct (hasUPX h); [|reflexivity]. now rewrite Hu.
Qed.

(** A configuration of the matrix on the synthetic host. *)
Lemma task_returns_witness : task synthetic_host cfg_internal = Ok tt.
Proof.
  apply (proj2 (task_returns synthetic_host cfg_internal)).
  eexists. eexists. split; [reflexivity|]. split; [reflexivity|]. split; reflexivity.
Defined.

(** X8. The work of one goroutine panics in four ways only: the slice of a
    link mode shorter than three bytes, a build time that cannot be
    marshalled, a build that fails, reported under the name of the
    toolchain, and, where [upx] is available, a compression that fails. *)
Theorem task_panics (h : Host) (c : Config) (e : panic) :
  task h c = Panic e ->
  (e = SliceBoundsOutOfRange 3 (length (LinkMode c)) /\ length (LinkMode c) < 3) \/
  (e = MarshalError /\ ~ year_in_range c) \/
  (e = ExecError (GoVersion c) /\
   exists cmd, Cmd h c = Ok cmd /\ exec_Run h cmd = false) \/
  (e = ExecError "upx" /\ hasUPX h = true).
Proof.
  unfold task. rewrite Cmd_eq. unfold json_MarshalIndent.
  rewrite MarshalJSON_returns, OutputPath_eq.
  destruct (Nat.leb_spec 3 (length (LinkMode c))) as [Hl|Hl]; cbn [bind].
  - pose proof (year_in_range_dec c) as Hy.
    destruct ((time.Year (BuildTime c) <? 0) || (10000 <=? time.Year (BuildTime c)))%Z;
      cbn [bind].
    + intros [= <-]. right; left. split; [reflexivity|].
      intros Hr. apply Hy in Hr. discriminate Hr.
    + unfold mustRunCmd at 1.
      match goal with |- context [exec_Run h ?cmd] => destruct (exec_Run h cmd) eqn:Er end;
        cbn [bind exec.Name].
      * destruct (hasUPX h); [|discriminate]. unfold upx, mustRun, mustRunCmd.
        match goal with |- (if exec_Run h ?u then _ else _) = _ -> _ =>
          destruct (exec_Run h u) end; [discriminate|].
        cbn [exec.Command exec.Name]. intros [= <-].
        right; right; right. split; reflexivity.
      * intros [= <-]. right; right; left. split; [reflexivity|].
        eexists. split; [reflexivity | exact Er].
  - intros [= <-]. left. split; [reflexivity | assumption].
Qed.

(** A build that fails: the host on which no command succeeds. *)
Lemma task_panics_witness :
  ExecError "go1.14" = ExecError (GoVersion cfg_internal) /\
  exists cmd, Cmd dead_host cfg_internal = Ok cmd /\ exec_Run dead_host cmd = false.
Proof.
  destruct (task_panics dead_host cfg_internal (ExecError "go1.14") eq_refl)
    as [[H _]|[[H _]|[H|[H _]]]]; try discriminate H.
  exact H.
Defined.

(** ** The version that a toolchain reports *)

Lemma runes_ascii_cons (c : ascii) (t : string) :
  (byte c < 128)%Z -> utf8.runes (String c t) = (byte c, str1 c) :: utf8.runes t.
Proof.
  intros Hc. unfold utf8.runes. cbn [utf8.runes_from utf8.DecodeRuneInString].
  unfold utf8.RuneSelf. replace (byte c <? 128)%Z with true by (symmetry; now apply Z.ltb_lt).
  cbn [substring Nat.sub]. now rewrite substring_0_0.
Qed.

Lemma fields_token (tok rest : string) (cur : option string) :
  token tok = true -> tok <> "" ->
  bytes.fields_of (utf8.runes (tok ++ rest)) cur =
  bytes.fields_of (utf8.runes rest) (Some (field_so_far cur ++ tok)).
Proof.
  revert cur; induction tok as [|c tok IH]; intros cur Ht Hne; [now elim Hne|].
  cbn [token] in Ht. apply andb_true_iff in Ht. destruct Ht as [Ht Htok].
  apply andb_true_iff in Ht. destruct Ht as [Hc Hsp]. apply Z.ltb_lt in Hc.
  cbn [append]. rewrite runes_ascii_cons by assumption.
  cbn [bytes.fields_of]. unfold bytes.space_rune. cbn [fst snd].
  apply negb_true_iff in Hsp. rewrite Hsp.
  destruct tok as [|d tok].
  - reflexivity.
  - rewrite IH by (assumption || discriminate). cbn [field_so_far].
    fold (field_so_far cur). now rewrite append_assoc.
Qed.

Lemma fields_space (sp : ascii) (rest : string) (cur : option string) :
  ascii_space sp = true ->
  bytes.fields_of (utf8.runes (String sp rest)) cur =
  match cur with
  | Some f => f :: bytes.fields_of (utf8.runes rest) None
  | None => bytes.fields_of (utf8.runes rest) None
  end.
Proof.
  unfold ascii_space. intros H. apply andb_true_iff in H. destruct H as [Hc Hsp].
  apply Z.ltb_lt in Hc. rewrite runes_ascii_cons by assumption.
  cbn [bytes.fields_of]. unfold bytes.space_rune. cbn [fst]. now rewrite Hsp.
Qed.

(** X9. [goVersion] reads the third field.  When the output of
    [exe version] is three non-empty words of ASCII separated by single
    white-space bytes and followed by a white-space byte, [goVersion]
    returns the third word, whatever follows; an output of two words is
    an index out of range, [2] with length [2]; a command that fails is
    a panic with its error. *)
Theorem goVersion_third_field (h : Host) (exe : string) :
  (forall t1 t2 v rest s1 s2 s3,
     token t1 = true -> t1 <> "" -> token t2 = true -> t2 <> "" ->
     token v = true -> v <> "" ->
     ascii_space s1 = true -> ascii_space s2 = true -> ascii_space s3 = true ->
     exec_Output h (exec.Command exe ["version"]) =
       Some (t1 ++ String s1 (t2 ++ String s2 (v ++ String s3 rest))) ->
     goVersion h exe = Ok v) /\
  (forall t1 t2 s1,
     token t1 = true -> t1 <> "" -> token t2 = true -> t2 <> "" ->
     ascii_space s1 = true ->
     exec_Output h (exec.Command exe ["version"]) = Some (t1 ++ String s1 t2) ->
     goVersion h exe = Panic (IndexOutOfRange 2 2)) /\
  (exec_Output h (exec.Command exe ["version"]) = None ->
   goVersion h exe = Panic (ExecError exe)).
Proof.
  unfold goVersion, bytes.Fields. split; [|split].
  - intros t1 t2 v rest s1 s2 s3 T1 N1 T2 N2 T3 N3 S1 S2 S3 ->.
    rewrite fields_token, fields_space by assumption.
    rewrite fields_token, fields_space by assumption.
    rewrite fields_token, fields_space by assumption. reflexivity.
  - intros t1 t2 s1 T1 N1 T2 N2 S1 ->.
    rewrite fields_token, fields_space by assumption.
    rewrite <- (append_nil_r t2), fields_token by assumption. reflexivity.
  - now intros ->.
Qed.

(** The synthetic host, a toolchain that prints two words and a machine
    without toolchains. *)
Lemma goVersion_third_field_witness :
  goVersion synthetic_host "go1.14" = Ok "go1.14" /\
  goVersion (mkHost "linux" 1 time.zero [] (fun _ => Some "go version") (fun _ => true)) "go" =
    Panic (IndexOutOfRange 2 2) /\
  goVersion bare_host "go" = Panic (ExecError "go").
Proof.
  split; [|split].
  - apply (proj1 (goVersion_third_field synthetic_host "go1.14")
             "go" "version" "go1.14" ("linux/amd64" ++ str1 (chr 10))
             " "%char " "%char " "%char);
      try reflexivity; discriminate.
  - apply (proj1 (proj2 (goVersion_third_field _ "go")) "go" "version" " "%char);
      try reflexivity; discriminate.
  - apply (proj2 (proj2 (goVersion_third_field bare_host "go"))). reflexivity.
Defined.

Lemma spaceless_append (s t : string) :
  spaceless (s ++ t) = spaceless s && spaceless t.
Proof.
  induction s as [|c s IH]; cbn [append spaceless]; [reflexivity|].
  now rewrite IH, andb_assoc.
Qed.

Lemma high_spaceless (s : string) : high s = true -> spaceless s = true.
Proof.
  induction s as [|c s IH]; cbn [high spaceless]; [reflexivity|].
  intros H. apply andb_true_iff in H. destruct H as [Hc Hs].
  rewrite (IH Hs), andb_true_r. unfold ascii_space.
  apply Z.leb_le in Hc. destruct (Z.ltb_spec (byte c) 128) as [H|H]; [lia | reflexivity].
Qed.

(** The bytes of a rune that is no white space: one byte or more, none of
    them an ASCII white space. *)
Lemma rune_spaceless (c : ascii) (t : string) (r : Z) (size : nat) :
  utf8.DecodeRuneInString (String c t) = (r, size) ->
  substring 0 size (String c t) <> "" /\
  (unicode.IsSpace r = false -> spaceless (substring 0 size (String c t)) = true).
Proof.
  intros H. apply Decode_spec in H.
  destruct H as [[-> H]|(H2 & Hl & Hr & Hh & _)].
  - cbn [substring]. rewrite substring_0_0. split; [discriminate|].
    intros Hs. cbn [spaceless]. rewrite andb_true_r. unfold ascii_space.
    destruct H as [[-> Hc]|[_ Hc]].
    + now rewrite Hs, andb_false_r.
    + destruct (Z.ltb_spec (byte c) 128) as [H|H]; [lia | reflexivity].
  - split; [|intros _; now apply high_spaceless].
    destruct size as [|k]; [lia|]. cbn [substring]. discriminate.
Qed.

Lemma runes_spaceless (n : nat) (s : string) (r : Z) (bs : string) :
  length s <= n -> In (r, bs) (utf8.runes s) ->
  bs <> "" /\ (unicode.IsSpace r = false -> spaceless bs = true).
Proof.
  revert s; induction n as [|n IH]; intros s Hn Hin.
  - destruct s; [destruct Hin | cbn [length] in Hn; lia].
  - destruct s as [|c t]; [destruct Hin|].
    destruct (utf8.DecodeRuneInString (String c t)) as [r0 size] eqn:Hd.
    pose proof (Decode_size _ _ _ _ Hd) as Hs.
    rewrite (runes_cons _ _ _ _ Hd) in Hin. destruct Hin as [E|Hin].
    + injection E as <- <-. now apply rune_spaceless.
    + apply (IH (drop size (String c t))); [|assumption].
      rewrite length_drop by lia. cbn [length] in *. lia.
Qed.

Lemma fields_spaceless (rs : list (Z * string)) (cur : option string) (f : string) :
  (forall r bs, In (r, bs) rs ->
     bs <> "" /\ (unicode.IsSpace r = false -> spaceless bs = true)) ->
  (forall g, cur = Some g -> g <> "" /\ spaceless g = true) ->
  In f (bytes.fields_of rs cur) -> f <> "" /\ spaceless f = true.
Proof.
  revert cur; induction rs as [|[r bs] rs IH]; intros cur Hrs Hcur Hin.
  - cbn [bytes.fields_of] in Hin. destruct cur as [g|]; [|destruct Hin].
    destruct Hin as [<-|[]]. now apply Hcur.
  - assert (Hrs' : forall r bs, In (r, bs) rs ->
                     bs <> "" /\ (unicode.IsSpace r = false -> spaceless bs = true))
      by (intros r' bs' H'; apply Hrs; now right).
    cbn [bytes.fields_of] in Hin. unfold bytes.space_rune in Hin. cbn [fst snd] in Hin.
    destruct (unicode.IsSpace r) eqn:Er.
    + destruct cur as [g|].
      * destruct Hin as [<-|Hin]; [now apply Hcur|].
        apply (IH None); [assumption | discriminate | assumption].
      * apply (IH None); [assumption | discriminate | assumption].
    + destruct (Hrs r bs (or_introl eq_refl)) as [Hne Hsp]. specialize (Hsp Er).
      apply (IH _ Hrs' ) in Hin; [assumption|].
      intros g [= <-]. split.
      * destruct cur as [g|]; [|assumption].
        destruct g; [now destruct (Hcur _ eq_refl)|discriminate].
      * rewrite spaceless_append, Hsp, andb_true_r.
        destruct cur as [g|]; [now destruct (Hcur g eq_refl) | reflexivity].
Qed.

(** X10. What [goVersion] returns is never empty and holds no ASCII white
    space: it is a field of the output.  So a toolchain whose name is
    empty or holds an ASCII white space never passes the comparison of
    the loops, whatever the host answers: the body of the loops panics
    for it and starts nothing. *)
Theorem goVersion_spaceless (h : Host) (exe : string) :
  (forall v, goVersion h exe = Ok v -> v <> "" /\ spaceless v = true) /\
  (exe = "" \/ spaceless exe = false ->
   forall name buildTime GOOS trimpath linkmode strip started,
   exists p,
     loop_body h name buildTime exe GOOS trimpath linkmode strip started =
       (Panic p, started)).
Proof.
  assert (G : forall v, goVersion h exe = Ok v -> v <> "" /\ spaceless v = true).
  { intros v. unfold goVersion, index_at.
    destruct (exec_Output h (exec.Command exe ["version"])) as [b|]; [|discriminate].
    destruct (nth_error (bytes.Fields b) 2) as [f|] eqn:En; [|discriminate].
    intros [= <-]. apply nth_error_In in En. unfold bytes.Fields in En.
    apply (fields_spaceless (utf8.runes b) None f); [|discriminate | assumption].
    intros r bs. apply (runes_spaceless (length b)). lia. }
  split; [exact G|].
  intros Hexe name buildTime GOOS trimpath linkmode strip started.
  rewrite loop_body_eq.
  destruct (goVersion h exe) as [version|p] eqn:Ev; [|now exists p].
  destruct (String.eqb_spec version exe) as [->|Hne]; cbn [negb]; [|eexists; reflexivity].
  destruct (G exe eq_refl) as [Hne Hsp].
  destruct Hexe as [E|E]; [now elim Hne | rewrite Hsp in E; discriminate E].
Qed.

(** The version that the synthetic host reports, and a name with a
    space. *)
Lemma goVersion_spaceless_witness :
  ("go1.14" <> "" /\ spaceless "go1.14" = true) /\
  exists p,
    loop_body synthetic_host "hello" time.zero "go 1.14" "linux" false "internal" false [] =
      (Panic p, []).
Proof.
  split.
  - apply (proj1 (goVersion_spaceless synthetic_host "go1.14") "go1.14"). reflexivity.
  - apply (proj2 (goVersion_spaceless synthetic_host "go 1.14")). right. reflexivity.
Defined.

(** The minor version is what stands between the first dot and the second:
    a version without a dot has none. *)
Lemma minor_between_dots (a d : string) :
  lacks "." a = true -> lacks "." d = true ->
  minor a = None /\
  minor (a ++ String "." d) = strconv.Atoi d /\
  forall rest, minor (a ++ String "." (d ++ String "." rest)) = strconv.Atoi d.
Proof.
  intros Ha Hd. unfold minor, Split.
  change "." with (str1 "."%char). split; [|split].
  - now rewrite genSplit_lacks.
  - rewrite genSplit_first, genSplit_lacks by assumption. reflexivity.
  - intros rest. rewrite !genSplit_first by assumption. reflexivity.
Qed.

(** X11. A version whose minor number cannot be read is fatal.  When the
    toolchain reports the version it is named after, a version without a
    dot makes the body of the loops panic with an index out of range, [1]
    with length [1], and a version whose second component is no number
    makes it panic with the error of [strconv.Atoi] for that component;
    no goroutine is started. *)
Theorem loop_body_unreadable_version (h : Host) (name : string) (buildTime : time.Time)
    (exe GOOS : string) (trimpath : bool) (linkmode : string) (strip : bool) :
  goVersion h exe = Ok exe ->
  (lacks "." exe = true ->
   loop_body h name buildTime exe GOOS trimpath linkmode strip [] =
     (Panic (IndexOutOfRange 1 1), [])) /\
  (forall a d,
     lacks "." a = true -> lacks "." d = true -> strconv.Atoi d = None ->
     exe = a ++ String "." d \/ (exists rest, exe = a ++ String "." (d ++ String "." rest)) ->
     loop_body h name buildTime exe GOOS trimpath linkmode strip [] =
       (Panic (NumError d), [])).
Proof.
  intros Hv. split.
  - intros Hno. rewrite loop_body_eq, Hv, String.eqb_refl. cbn [negb].
    unfold Split. change "." with (str1 "."%char).
    rewrite genSplit_lacks by assumption. reflexivity.
  - intros a d Ha Hd Hn Hexe. rewrite loop_body_eq, Hv, String.eqb_refl. cbn [negb].
    unfold Split. change "." with (str1 "."%char).
    destruct Hexe as [->|[rest ->]].
    + rewrite genSplit_first, genSplit_lacks by assumption. cbn [nth_error append].
      now rewrite Hn.
    + rewrite !genSplit_first by assumption. cbn [nth_error append]. now rewrite Hn.
Qed.

(** The versions [go1] and [go1.x] on the synthetic host. *)
Lemma loop_body_unreadable_version_witness :
  loop_body synthetic_host "hello" time.zero "go1" "linux" false "internal" false [] =
    (Panic (IndexOutOfRange 1 1), []) /\
  loop_body synthetic_host "hello" time.zero "go1.x" "linux" false "internal" false [] =
    (Panic (NumError "x"), []).
Proof.
  split.
  - apply (proj1 (loop_body_unreadable_version synthetic_host "hello" time.zero "go1" "linux"
                    false "internal" false eq_refl)). reflexivity.
  - apply (proj2 (loop_body_unreadable_version synthetic_host "hello" time.zero "go1.x" "linux"
                    false "internal" false eq_refl) "go1" "x"); try reflexivity.
    left. reflexivity.
Defined.

(** ** Installing the toolchains *)

Lemma install_effect_installs : installs install_effect ["1.12"; "1.13"].
Proof.
  split.
  - intros h v [<-|[<-|[]]] _; reflexivity.
  - intros h cmd v Hv Hq. unfold install_effect.
    destruct (has_args cmd "download"); [|assumption].
    unfold goVersion in *. cbn [exec_Output exec.Command exec.Name has_args exec.Args].
    rewrite String.eqb_refl, andb_true_r.
    destruct (String.eqb_spec v (exec.Name cmd)) as [<-|_]; [|assumption].
    destruct Hv as [<-|[<-|[]]]; reflexivity.
Qed.

Lemma install_bare :
  installMissingToolchains install_effect (bare_host, []) ["1.12"; "1.13"] =
  (Ok tt, snd (installMissingToolchains install_effect (bare_host, []) ["1.12"; "1.13"])).
Proof.
  rewrite (surjective_pairing (installMissingToolchains install_effect (bare_host, [])
                                 ["1.12"; "1.13"])) at 1.
  f_equal.
Qed.

Lemma no_empty_version : ~ In "" ["1.12"; "1.13"].
Proof. intros [H|[H|[]]]; discriminate H. Qed.

Lemma synthetic_minors : forall v, In v (versions synthetic_axes) -> minor v <> None.
Proof. intros v [<-|[<-|[]]]; discriminate. Qed.

(** X12. Nothing to install.  When every listed toolchain reports its
    version, [installMissingToolchains] returns, runs no command with
    [mustRun] and leaves the machine as it is. *)
Theorem install_nothing_missing (effect : Effect) (st : Run) (versions : list string) :
  (forall v, In v versions -> goVersion (fst st) v = Ok v) ->
  installMissingToolchains effect st versions = (Ok tt, st).
Proof.
  induction versions as [|v versions IH]; intros H; [reflexivity|].
  cbn [installMissingToolchains]. unfold installed.
  rewrite (H v (or_introl eq_refl)), String.eqb_refl. cbn [negb].
  apply IH. intros u Hu. apply H. now right.
Qed.

(** The versions of [main] on the synthetic host. *)
Lemma install_nothing_missing_witness :
  installMissingToolchains (fun h _ => h) (synthetic_host, []) (versions main_axes) =
    (Ok tt, (synthetic_host, [])).
Proof.
  apply install_nothing_missing.
  intros v [<-|[<-|[<-|[<-|[<-|[]]]]]]; reflexivity.
Defined.

(** X13. What [installMissingToolchains] runs.  Whether it returns or
    panics, the commands that it runs with [mustRun] come after those run
    before, and each of them is [go get golang.org/dl/v] or [v download]
    for a listed version [v]. *)
Theorem install_commands (effect : Effect) (st st' : Run) (versions : list string)
    (r : result unit) :
  installMissingToolchains effect st versions = (r, st') ->
  exists cmds,
    snd st' = (snd st ++ cmds)%list /\
    forall cmd, In cmd cmds -> exists v, In v versions /\ (cmd = go_get v \/ cmd = download v).
Proof.
  revert st; induction versions as [|v versions IH]; intros st H.
  - injection H as _ <-. exists []. split; [now rewrite app_nil_r | intros cmd []].
  - cbn [installMissingToolchains] in H.
    destruct (negb (installed (fst st) v =? v)).
    + unfold mustRun_on in H. cbn [fst snd] in H.
      destruct (mustRun (fst st) "go" ["get"; "golang.org/dl/" ++ v]) as [[]|p].
      * destruct (mustRun (effect (fst st) (exec.Command "go" ["get"; "golang.org/dl/" ++ v]))
                    v ["download"]) as [[]|p].
        -- apply IH in H. destruct H as (cmds & Hs & Hc). cbn [snd] in Hs.
           exists (go_get v :: download v :: cmds). split.
           ++ rewrite Hs, <- !app_assoc. reflexivity.
           ++ intros cmd [<-|[<-|Hin]].
              ** exists v. split; [now left | now left].
              ** exists v. split; [now left | now right].
              ** destruct (Hc cmd Hin) as (u & Hu & Hcmd). exists u. split; [now right | assumption].
        -- injection H as _ <-. cbn [snd]. exists [go_get v; download v]. split.
           ++ now rewrite <- app_assoc.
           ++ intros cmd [<-|[<-|[]]]; exists v; split; (now left) || (now right).
      * injection H as _ <-. cbn [snd]. exists [go_get v]. split; [reflexivity|].
        intros cmd [<-|[]]. exists v. split; now left.
    + apply IH in H. destruct H as (cmds & Hs & Hc). exists cmds. split; [assumption|].
      intros cmd Hin. destruct (Hc cmd Hin) as (u & Hu & Hcmd). exists u. split; [now right | assumption].
Qed.

(** Two versions on a machine without toolchains. *)
Lemma install_commands_witness :
  exists cmds,
    snd (snd (installMissingToolchains install_effect (bare_host, []) ["1.12"; "1.13"])) =
      ([] ++ cmds)%list /\
    forall cmd, In cmd cmds ->
      exists v, In v ["1.12"; "1.13"] /\ (cmd = go_get v \/ cmd = download v).
Proof.
  apply (install_commands install_effect (bare_host, [])
           (snd (installMissingToolchains install_effect (bare_host, []) ["1.12"; "1.13"]))
           ["1.12"; "1.13"]
           (fst (installMissingToolchains install_effect (bare_host, []) ["1.12"; "1.13"]))).
  apply surjective_pairing.
Defined.

Lemma install_preserves (effect : Effect) (st st' : Run) (versions vs : list string)
    (r : result unit) (u : string) :
  installs effect vs -> In u vs ->
  installMissingToolchains effect st versions = (r, st') ->
  goVersion (fst st) u = Ok u -> goVersion (fst st') u = Ok u.
Proof.
  intros [_ Hkeep] Hin. revert st; induction versions as [|v versions IH]; intros st H Hu.
  - now injection H as _ <-.
  - cbn [installMissingToolchains] in H.
    destruct (negb (installed (fst st) v =? v)); [|now apply (IH st)].
    unfold mustRun_on in H. cbn [fst snd] in H.
    destruct (mustRun (fst st) "go" ["get"; "golang.org/dl/" ++ v]) as [[]|p].
    + destruct (mustRun (effect (fst st) (exec.Command "go" ["get"; "golang.org/dl/" ++ v]))
                  v ["download"]) as [[]|p].
      * apply IH in H; [assumption|]. cbn [fst]. repeat (apply Hkeep; [assumption|]); assumption.
      * injection H as _ <-. cbn [fst]. repeat (apply Hkeep; [assumption|]); assumption.
    + injection H as _ <-. cbn [fst]. now apply Hkeep.
Qed.

Lemma install_post (effect : Effect) (st st' : Run) (versions vs : list string) :
  installs effect vs -> incl versions vs -> ~ In "" versions ->
  installMissingToolchains effect st versions = (Ok tt, st') ->
  forall v, In v versions -> goVersion (fst st') v = Ok v.
Proof.
  intros Hi. pose proof Hi as [Hdl Hkeep].
  revert st; induction versions as [|v versions IH]; intros st Hincl Hne H u Hu;
    [destruct Hu|].
  assert (Hne' : ~ In "" versions) by (intros Hin; apply Hne; now right).
  assert (Hincl' : incl versions vs) by (intros x Hx; apply Hincl; now right).
  assert (Hv : In v vs) by (apply Hincl; now left).
  cbn [installMissingToolchains] in H.
  destruct (String.eqb_spec (installed (fst st) v) v) as [E|E]; cbn [negb] in H.
  - destruct Hu as [<-|Hu]; [|now apply (IH st)].
    apply (install_preserves effect st st' versions vs (Ok tt)); try assumption.
    unfold installed in E. destruct (goVersion (fst st) v) as [w|p] eqn:Ev.
    + now subst w.
    + subst v. elim Hne. now left.
  - unfold mustRun_on in H. cbn [fst snd] in H.
    destruct (mustRun (fst st) "go" ["get"; "golang.org/dl/" ++ v]) as [[]|p];
      [|discriminate H].
    destruct (mustRun (effect (fst st) (exec.Command "go" ["get"; "golang.org/dl/" ++ v]))
                v ["download"]) as [[]|p] eqn:Ed; [|discriminate H].
    destruct Hu as [<-|Hu]; [|now apply (IH _ Hincl' Hne' H)].
    apply (install_preserves effect _ st' versions vs (Ok tt) v Hi Hv H). cbn [fst].
    apply Hdl; [assumption|]. unfold mustRun, mustRunCmd in Ed. unfold download.
    destruct (exec_Run _ (exec.Command v ["download"])); [reflexivity | discriminate Ed].
Qed.

(** X14. After the installation.  Under an effect that installs the listed
    versions, when [installMissingToolchains] returns, every listed
    toolchain reports its version, provided no listed version is the
    empty string. *)
Theorem install_postcondition (effect : Effect) (st st' : Run) (versions : list string) :
  installs effect versions -> ~ In "" versions ->
  installMissingToolchains effect st versions = (Ok tt, st') ->
  forall v, In v versions -> goVersion (fst st') v = Ok v.
Proof.
  intros Hi Hne H. apply (install_post effect st st' versions versions); try assumption.
  apply incl_refl.
Qed.

(** Two versions on a machine without toolchains. *)
Lemma install_postcondition_witness :
  goVersion (fst (snd (installMissingToolchains install_effect (bare_host, [])
                         ["1.12"; "1.13"]))) "1.13" = Ok "1.13".
Proof.
  apply (install_postcondition install_effect (bare_host, []) _ ["1.12"; "1.13"]
           install_effect_installs no_empty_version install_bare).
  right. left. reflexivity.
Defined.

(** X15. A second run of the installation does nothing.  Under an effect
    that installs the listed versions, none of them empty, on the machine
    on which [installMissingToolchains] has returned it returns again,
    runs no command and leaves the machine as it is. *)
Theorem install_twice (effect : Effect) (st st' : Run) (versions : list string) :
  installs effect versions -> ~ In "" versions ->
  installMissingToolchains effect st versions = (Ok tt, st') ->
  installMissingToolchains effect st' versions = (Ok tt, st').
Proof.
  intros Hi Hne H.
  pose proof (install_post effect st st' versions versions Hi (incl_refl _) Hne H) as Hall.
  clear H Hi Hne. induction versions as [|v versions IH]; [reflexivity|].
  cbn [installMissingToolchains]. unfold installed.
  rewrite (Hall v (or_introl eq_refl)), String.eqb_refl. cbn [negb].
  apply IH. intros u Hu. apply Hall. now right.
Qed.

(** Two versions on a machine without toolchains. *)
Lemma install_twice_witness :
  installMissingToolchains install_effect
    (snd (installMissingToolchains install_effect (bare_host, []) ["1.12"; "1.13"]))
    ["1.12"; "1.13"] =
  (Ok tt, snd (installMissingToolchains install_effect (bare_host, []) ["1.12"; "1.13"])).
Proof.
  apply (install_twice install_effect (bare_host, []) _ ["1.12"; "1.13"]
           install_effect_installs no_empty_version install_bare).
Defined.

(** X16. The empty string among the versions.  [recover] turns a failed
    query into the empty string, which the comparison takes for the
    version of a toolchain named by the empty string: when the query for
    that name fails, the entry is passed over, and no command is run for
    it. *)
Theorem install_empty_version (effect : Effect) (st : Run) (rest : list string) :
  (exists p, goVersion (fst st) "" = Panic p) ->
  installMissingToolchains effect st ("" :: rest) =
  installMissingToolchains effect st rest.
Proof.
  intros [p Hp]. cbn [installMissingToolchains]. unfold installed. now rewrite Hp.
Qed.

(** A machine without toolchains. *)
Lemma install_empty_version_witness :
  installMissingToolchains install_effect (bare_host, []) ["" ; "1.12"] =
  installMissingToolchains install_effect (bare_host, []) ["1.12"].
Proof.
  apply install_empty_version. exists (ExecError EmptyString). reflexivity.
Defined.

(** X17. The installation stops at the first command that fails.  When
    the versions listed before [v] are installed, the toolchain of [v]
    does not report [v] and [go get] fails for [v], the panic is that of
    [go get], which is the only command run: nothing is downloaded and
    no later version is looked at. *)
Theorem install_stops_at_failure (effect : Effect) (st : Run) (pre post : list string)
    (v : string) :
  (forall u, In u pre -> goVersion (fst st) u = Ok u) ->
  installed (fst st) v <> v ->
  exec_Run (fst st) (go_get v) = false ->
  installMissingToolchains effect st (pre ++ v :: post) =
    (Panic (ExecError "go"), (effect (fst st) (go_get v), (snd st ++ [go_get v])%list)).
Proof.
  induction pre as [|u pre IH]; intros Hpre Hv Hrun; cbn [app installMissingToolchains].
  - destruct (String.eqb_spec (installed (fst st) v) v) as [E|_]; [now elim Hv|].
    cbn [negb]. unfold mustRun_on, mustRun, mustRunCmd. fold (go_get v). now rewrite Hrun.
  - unfold installed at 1. rewrite (Hpre u (or_introl eq_refl)), String.eqb_refl. cbn [negb].
    apply IH; try assumption. intros w Hw. apply Hpre. now right.
Qed.

(** The host on which no command succeeds. *)
Lemma install_stops_at_failure_witness :
  installMissingToolchains install_effect (dead_host, []) ([] ++ "1.12" :: ["1.13"]) =
    (Panic (ExecError "go"),
     (install_effect dead_host (go_get "1.12"), ([] ++ [go_get "1.12"])%list)).
Proof.
  apply (install_stops_at_failure install_effect (dead_host, []) [] ["1.13"] "1.12").
  - intros u [].
  - discriminate.
  - reflexivity.
Defined.

(** X18. The installation makes the loops safe.  Under an effect that
    installs the versions of the axes, none of them empty and each with a
    minor number, on the machine on which [installMissingToolchains] has
    returned the loops end without a panic and start the whole matrix of
    that machine. *)
Theorem install_then_loops (effect : Effect) (st st' : Run) (name : string)
    (buildTime : time.Time) (ax : Axes) :
  installs effect (versions ax) -> ~ In "" (versions ax) ->
  (forall v, In v (versions ax) -> minor v <> None) ->
  installMissingToolchains effect st (versions ax) = (Ok tt, st') ->
  outcome (fst st') name buildTime ax = Ok tt /\
  enumerated (fst st') name buildTime ax = matrix (runtime_GOOS (fst st')) name buildTime ax.
Proof.
  intros Hi Hne Hm H. apply enumerate_consistent. intros v Hv. split.
  - apply (install_post effect st st' (versions ax) (versions ax)); try assumption.
    apply incl_refl.
  - now apply Hm.
Qed.

(** The synthetic axes on a machine without toolchains. *)
Lemma install_then_loops_witness :
  outcome (fst (snd (installMissingToolchains install_effect (bare_host, [])
                       (versions synthetic_axes)))) "hello" time.zero synthetic_axes = Ok tt /\
  enumerated (fst (snd (installMissingToolchains install_effect (bare_host, [])
                          (versions synthetic_axes)))) "hello" time.zero synthetic_axes =
    matrix (runtime_GOOS (fst (snd (installMissingToolchains install_effect (bare_host, [])
                                      (versions synthetic_axes)))))
      "hello" time.zero synthetic_axes.
Proof.
  apply (install_then_loops install_effect (bare_host, []) _ "hello" time.zero synthetic_axes
           install_effect_installs no_empty_version synthetic_minors install_bare).
Defined.

(** ** Progress and termination of [main] *)

Lemma run_step_decreases (cap : nat) (work : Config -> result unit) (s s' : sched.state) :
  sched.run_step cap work s s' -> steps_left cap s' < steps_left cap s.
Proof.
  intros [Hlive Hstep]. unfold steps_left. rewrite Hlive.
  destruct Hstep; cbn [sched.ended sched.pc sched.working sched.releasing main_steps
                       List.length] in *; try lia.
  - destruct p; cbn [sched.ended sched.pc] in *; try discriminate Hlive;
      rewrite !List.length_app; cbn [List.length main_steps]; lia.
  - rewrite !List.length_app; cbn [List.length]. lia.
  - destruct p; cbn [sched.ended sched.pc] in *; try discriminate Hlive;
      cbn [main_steps]; lia.
Qed.

Section Progress.

Variables (cap : nat) (work : Config -> result unit).
Variables (todo : list Config) (last : result unit).

Lemma gate_balance_reachable (s : sched.state) :
  sched.reachable cap work (sched.init todo last) s -> gate_balance cap s.
Proof.
  induction 1 as [|s s' _ IH [Hlive Hstep]].
  - intros _. cbn. split; [reflexivity | discriminate].
  - specialize (IH Hlive). destruct IH as [Hb Hd]. intros Hlive'.
    destruct Hstep; cbn [sched.ended sched.pc sched.sem sched.working sched.releasing
                         sched.main_slots List.length] in *;
      try discriminate Hlive'.
    + split; [lia | discriminate].
    + split; [lia | discriminate].
    + rewrite List.length_app in *. cbn [List.length] in *. split; [lia | assumption].
    + split; [lia | assumption].
    + split; [lia | intros k [= <-]; lia].
    + specialize (Hd (S k) eq_refl). split; [lia | intros m [= <-]; lia].
Qed.

Lemma keeps_last_reachable (s : sched.state) :
  sched.reachable cap work (sched.init todo last) s -> keeps_last last s.
Proof.
  induction 1 as [|s s' _ IH [Hlive Hstep]]; [reflexivity|].
  unfold keeps_last in *. destruct Hstep; cbn [sched.pc] in *; try exact I; assumption.
Qed.

(** The gate does not deadlock: with one slot or more, a live process can
    always take a step. *)
Lemma live_can_step (s : sched.state) :
  0 < cap -> sched.reachable cap work (sched.init todo last) s ->
  sched.ended s = false -> exists s', sched.run_step cap work s s'.
Proof.
  intros Hcap Hreach Hlive.
  destruct (gate_balance_reachable s Hreach Hlive) as [Hb Hd].
  pose proof (gate_invariant_reachable _ _ _ _ _ Hreach) as (Hsem & _).
  destruct s as [p n w r d]. cbn [sched.pc sched.sem sched.working sched.releasing] in *.
  assert (Hbusy : n = cap -> sched.main_slots cap p < cap ->
                  exists s', sched.run_step cap work (sched.mkState p n w r d) s').
  { intros -> Hslots. destruct r as [|r].
    - destruct w as [|c w]; [cbn [List.length] in Hb; lia|].
      destruct (work c) as [[]|e] eqn:Ew.
      + eexists. split; [assumption|].
        apply (sched.step_work_done cap work p cap [] c w 0 d Ew).
      + eexists. split; [assumption|].
        apply (sched.step_work_panic cap work p e cap [] c w 0 d Ew).
    - destruct cap as [|k]; [lia|]. eexists. split; [assumption|]. apply sched.step_release. }
  destruct p as [[|c t] l | c t l | [|k] | | e]; try discriminate Hlive.
  - destruct l as [[]|e]; eexists; (split; [assumption|]).
    + apply sched.step_loops_end.
    + apply sched.step_loops_panic.
  - destruct (Nat.lt_ge_cases n cap) as [Hlt|Hge].
    + eexists. split; [assumption|]. now apply sched.step_acquire.
    + apply Hbusy; [lia | cbn; lia].
  - eexists. split; [assumption|]. apply sched.step_go.
  - eexists. split; [assumption|]. apply sched.step_return.
  - destruct (Nat.lt_ge_cases n cap) as [Hlt|Hge].
    + eexists. split; [assumption|]. now apply sched.step_drain.
    + specialize (Hd (S k) eq_refl). apply Hbusy; [lia | cbn; lia].
Qed.

(** Without a panic in the loops or in the work of a goroutine, the process
    does not crash. *)
Lemma never_crashes (s : sched.state) :
  last = Ok tt -> (forall c, In c todo -> work c = Ok tt) ->
  sched.reachable cap work (sched.init todo last) s ->
  forall e, sched.pc s <> sched.Crashed e.
Proof.
  intros Hlast Hwork Hreach. induction Hreach as [|s s' Hreach IH [Hlive Hstep]].
  - discriminate.
  - pose proof (keeps_last_reachable s Hreach) as Hk.
    pose proof (gate_invariant_reachable _ _ _ _ _ Hreach) as (_ & _ & _ & Hperm).
    unfold keeps_last in Hk.
    destruct Hstep; cbn [sched.pc sched.working sched.completed] in *; try discriminate;
      try assumption.
    + exfalso.
      assert (Hin : In cfg todo).
      { destruct p; try discriminate Hlive;
          (eapply Permutation_in; [exact Hperm|]);
          rewrite !in_app_iff; right; left; right; now left. }
      rewrite (Hwork cfg Hin) in H. discriminate H.
    + exfalso. subst last. discriminate Hk.
Qed.

End Progress.

Lemma run_of_reachable (cap : nat) (work : Config -> result unit) (n : nat)
    (s0 s s' : sched.state) :
  sched.reachable cap work s0 s -> run_of cap work n s s' -> sched.reachable cap work s0 s'.
Proof.
  intros Hr Hrun. induction Hrun as [|n s s' s'' Hstep _ IH]; [assumption|].
  apply IH. now apply sched.reach_step with s.
Qed.

Lemma run_of_bound (cap : nat) (work : Config -> result unit) (n : nat) (s s' : sched.state) :
  run_of cap work n s s' -> n + steps_left cap s' <= steps_left cap s.
Proof.
  induction 1 as [|n s s' s'' Hstep _ IH]; [lia|].
  apply run_step_decreases in Hstep. lia.
Qed.

(** X19. The gate does not deadlock.  With one processor or more, in every
    state that a run of [main] reaches before the process ends, some
    goroutine can take a step: when the main goroutine waits for a slot, a
    goroutine holds one and can finish its work or release. *)
Theorem main_no_deadlock (h : Host) (s : sched.state) :
  0 < runtime_NumCPU h -> main_reachable h s -> sched.ended s = false ->
  exists s', sched.run_step (runtime_NumCPU h) (task h) s s'.
Proof. intros Hcap Hr Hl. now apply (live_can_step _ _ _ _ s Hcap Hr). Qed.

(** The first state of [main] on the synthetic host. *)
Lemma main_no_deadlock_witness :
  exists s', sched.run_step (runtime_NumCPU synthetic_host) (task synthetic_host)
               (main_init synthetic_host) s'.
Proof.
  apply (main_no_deadlock synthetic_host (main_init synthetic_host)).
  - cbn. lia.
  - apply sched.reach_init.
  - reflexivity.
Defined.

(** X20. [main] ends.  A run of [main] that starts [g] goroutines on [N]
    processors takes at most [4 * g + N + 2] steps of the main goroutine
    and of its goroutines together. *)
Theorem main_terminates (h : Host) (n : nat) (s : sched.state) :
  run_of (runtime_NumCPU h) (task h) n (main_init h) s ->
  n <= 4 * List.length (snd (main_loops h [])) + runtime_NumCPU h + 2.
Proof.
  intros Hrun. apply run_of_bound in Hrun.
  unfold steps_left at 2 in Hrun. unfold main_init, sched.init in Hrun.
  cbn [sched.ended sched.pc sched.working sched.releasing main_steps List.length] in Hrun.
  lia.
Qed.

(** A run of one step on the synthetic host. *)
Lemma main_terminates_witness :
  1 <= 4 * List.length (snd (main_loops synthetic_host [])) + runtime_NumCPU synthetic_host + 2.
Proof.
  assert (Hcap : 0 < runtime_NumCPU synthetic_host) by (cbn; lia).
  destruct (live_can_step (runtime_NumCPU synthetic_host) (task synthetic_host)
              (snd (main_loops synthetic_host [])) (fst (main_loops synthetic_host []))
              (main_init synthetic_host) Hcap
              (sched.reach_init _ _ _) eq_refl) as [s' Hs'].
  apply (main_terminates synthetic_host 1 s').
  apply run_cons with s'; [exact Hs' | apply run_nil].
Defined.

(** X21. [main] returns with all work done.  With one processor or more,
    when the loops end without a panic and the work of every goroutine
    they start returns, a run of [main] that can go no further has
    returned: no goroutine is at work or about to release, and the
    goroutines that have completed are those that the loops started. *)
Theorem main_returns (h : Host) (s : sched.state) :
  0 < runtime_NumCPU h ->
  fst (main_loops h []) = Ok tt ->
  (forall c, In c (snd (main_loops h [])) -> task h c = Ok tt) ->
  main_reachable h s ->
  (forall s', ~ sched.run_step (runtime_NumCPU h) (task h) s s') ->
  sched.pc s = sched.Returned /\ sched.working s = [] /\ sched.releasing s = 0 /\
  Permutation (sched.completed s) (snd (main_loops h [])).
Proof.
  intros Hcap Hlast Hwork Hr Hstuck.
  destruct (sched.ended s) eqn:He.
  - pose proof (never_crashes _ _ _ _ s Hlast Hwork Hr) as Hnc.
    pose proof (gate_invariant_reachable _ _ _ _ _ Hr) as (Hsem & Hslots & _ & Hperm).
    unfold sched.ended in He.
    destruct (sched.pc s) eqn:Hpc; try discriminate He; [|now elim (Hnc p)].
    cbn [sched.main_slots pending app] in *.
    assert (Hw : sched.working s = []).
    { destruct (sched.working s); [reflexivity | cbn [List.length] in Hslots; lia]. }
    rewrite Hw in *. cbn [List.length app] in *.
    split; [reflexivity|]. split; [reflexivity|]. split; [lia | exact Hperm].
  - destruct (live_can_step _ _ _ _ s Hcap Hr He) as [s' Hs']. now elim (Hstuck s').
Qed.

(** The state in which [main] has returned on the synthetic host. *)
Lemma main_returns_witness :
  sched.pc (sched.mkState sched.Returned 4 [] 0 (rev (snd (main_loops synthetic_host [])))) =
    sched.Returned /\
  Permutation (rev (snd (main_loops synthetic_host []))) (snd (main_loops synthetic_host [])).
Proof.
  destruct main_synthetic_tasks as (Hlast & _ & Hwork).
  assert (Hcap : 0 < runtime_NumCPU synthetic_host) by (cbn; lia).
  destruct (main_returns synthetic_host
              (sched.mkState sched.Returned 4 [] 0 (rev (snd (main_loops synthetic_host []))))
              Hcap Hlast Hwork) as (Hpc & _ & _ & Hperm).
  - apply (can_return 4 (task synthetic_host) (snd (main_loops synthetic_host []))
             (fst (main_loops synthetic_host []))); [lia | exact Hlast | exact Hwork].
  - intros s' [He _]. discriminate He.
  - split; [exact Hpc | exact Hperm].
Defined.

(** ** The output path of the earlier revision *)

Lemma Marshal_legacy_snapshot (c : legacy.Config) :
  exists b, legacy.json_Marshal (legacy.snapshot c) = Ok b.
Proof. unfold legacy.json_Marshal, legacy.snapshot. cbn [legacy.BuildTime]. eexists. reflexivity. Qed.

(** X22. The output path of the earlier revision.  It does not depend on
    [BuildTime]; it is a path exactly when [LinkMode] has three bytes or
    more, a slice-bounds panic otherwise, and the path is then the file
    name of the same scheme, with the hash of a JSON form that has
    [GoExe] in it. *)
Theorem OutputPath_legacy_scheme (c : legacy.Config) :
  (forall c', legacy.snapshot c = legacy.snapshot c' ->
     legacy.OutputPath c = legacy.OutputPath c') /\
  (returns (legacy.OutputPath c) <-> 3 <= length (legacy.LinkMode c)) /\
  (length (legacy.LinkMode c) < 3 ->
   legacy.OutputPath c = Panic (SliceBoundsOutOfRange 3 (length (legacy.LinkMode c)))) /\
  (forall p, legacy.OutputPath c = Ok p ->
     exists b,
       legacy.json_Marshal (legacy.snapshot c) = Ok b /\
       p = filepath.Join
             [out;
              legacy.Name c ++ "-" ++ legacy.GoVersion c ++ "-" ++ legacy.GOOS c ++ "-" ++
              substring 0 3 (legacy.LinkMode c) ++ "lnk" ++
              (if legacy.StripDebug c then "-strip" else "") ++
              (if legacy.TrimPath c then "-trimpath" else "") ++
              "-" ++ hex8 (fnv.Write fnv.offset32 b) ++
              (if legacy.GOOS c =? "windows" then ".exe" else "")]).
Proof.
  split; [intros c'; apply OutputPath_legacy_ignores_BuildTime|].
  rewrite OutputPath_legacy_eq. destruct (Marshal_legacy_snapshot c) as [b Hb]. rewrite Hb.
  destruct (Nat.leb_spec 3 (length (legacy.LinkMode c))) as [Hl|Hl].
  - split; [|split].
    + split; [intros _; assumption | intros _; eexists; reflexivity].
    + lia.
    + intros p [= <-]. now exists b.
  - split; [|split].
    + split; [intros [a Ha]; discriminate Ha | lia].
    + reflexivity.
    + discriminate.
Qed.

(** A configuration of the earlier matrix, and the link mode [ex]. *)
Lemma OutputPath_legacy_scheme_witness :
  returns (legacy.OutputPath
             (legacy.mkConfig "hello" "go" "go1.14" "linux" "internal" false true time.zero)) /\
  legacy.OutputPath
    (legacy.mkConfig "hello" "go" "go1.14" "linux" "ex" false true time.zero) =
    Panic (SliceBoundsOutOfRange 3 2).
Proof.
  split.
  - apply (proj2 (proj1 (proj2 (OutputPath_legacy_scheme _)))). cbn. lia.
  - apply (proj1 (proj2 (proj2 (OutputPath_legacy_scheme
             (legacy.mkConfig "hello" "go" "go1.14" "linux" "ex" false true time.zero))))).
    cbn. lia.
Defined.
